(** * QuickShop support chat backend: conversation store and chat handler

  A shallow embedding of the Express server (server.ts): the two SQLite
  tables it creates, the statements it runs on them, and the route
  handlers for [POST /api/message], [GET /api/conversation/:id],
  [GET /api/conversation/:id/export] and [DELETE /api/conversation/:id].

  What the server takes from outside (uuidv4, the SQLite clock, the
  JavaScript clock, the Groq completion API) is an environment of
  oracles, each indexed by how many times it has been consulted; the
  handlers thread a [World] holding the database, the oracle counters
  and the log of completion calls. A handler is run as one atomic step:
  interleaving of concurrent requests is outside this development. *)

From Stdlib Require Import List String Ascii ZArith NArith Arith Bool Lia Sorted.
Import ListNotations.

Set Implicit Arguments.
Set Warnings "-register-all".

(* ===================================================================== *)
(** ** JavaScript strings *)
(* ===================================================================== *)

Module Js.

(** A JavaScript string is a sequence of UTF-16 code units; [length]
    counts code units, as [String.prototype.length] does. *)
Definition code_unit := N.
Definition jsstring := list code_unit.

(** ASCII literals of the source text. *)
Fixpoint js (s : string) : jsstring :=
  match s with
  | EmptyString => []
  | String c rest => N_of_ascii c :: js rest
  end.

Fixpoint eqb (a b : jsstring) : bool :=
  match a, b with
  | [], [] => true
  | x :: a', y :: b' => N.eqb x y && eqb a' b'
  | _, _ => false
  end.

(** ECMAScript WhiteSpace and LineTerminator code points, the set that
    [String.prototype.trim] strips: TAB, LF, VT, FF, CR, SP, NBSP,
    U+1680, U+2000..U+200A, LS, PS, U+202F, U+205F, U+3000, BOM. *)
Definition is_white_space (c : code_unit) : bool :=
  ((c =? 9) || (c =? 10) || (c =? 11) || (c =? 12) || (c =? 13)
   || (c =? 32) || (c =? 160) || (c =? 5760)
   || ((8192 <=? c) && (c <=? 8202))
   || (c =? 8232) || (c =? 8233) || (c =? 8239) || (c =? 8287)
   || (c =? 12288) || (c =? 65279))%N.

Fixpoint trimStart (s : jsstring) : jsstring :=
  match s with
  | [] => []
  | c :: rest => if is_white_space c then trimStart rest else s
  end.

Definition trimEnd (s : jsstring) : jsstring := rev (trimStart (rev s)).

Definition trim (s : jsstring) : jsstring := trimEnd (trimStart s).

(** Truthiness of a string: only the empty string is falsy. *)
Definition truthy (s : jsstring) : bool :=
  match s with [] => false | _ :: _ => true end.

(** [a || b] on strings. *)
Definition or_else (a b : jsstring) : jsstring :=
  if truthy a then a else b.

(** JSON values, for request and response bodies. Object fields keep
    the order in which the source's object literal lists them. *)
Inductive Json : Type :=
| JNull
| JBool (b : bool)
| JNum (z : Z)
| JStr (s : jsstring)
| JArr (items : list Json)
| JObj (fields : list (string * Json)).

Fixpoint assoc (k : string) (fs : list (string * Json)) : option Json :=
  match fs with
  | [] => None
  | (k', v) :: rest => if String.eqb k k' then Some v else assoc k rest
  end.

(** [v.k] for an object [v]. *)
Definition field (k : string) (v : Json) : option Json :=
  match v with
  | JObj fs => assoc k fs
  | _ => None
  end.

(** A thrown value, as far as the handlers inspect it: [error.status]. *)
Record JsError := mkError { err_status : option Z; err_message : jsstring }.

Definition dquote : string := String (ascii_of_nat 34) EmptyString.

End Js.

Import Js.

(* ===================================================================== *)
(** ** The SQLite store *)
(* ===================================================================== *)

Module Store.

Inductive Sender := user | ai.

Definition sender_text (s : Sender) : jsstring :=
  match s with user => js "user" | ai => js "ai" end.

(** [conversations (id TEXT PRIMARY KEY, created_at TIMESTAMP DEFAULT
    CURRENT_TIMESTAMP)]. CURRENT_TIMESTAMP is a text of whole seconds
    ('YYYY-MM-DD HH:MM:SS'); it is held here as that number of seconds,
    which orders the same way. *)
Record ConversationRow := mkConversation {
  conv_id : jsstring;
  conv_created_at : Z
}.

(** [messages (id TEXT PRIMARY KEY, conversation_id TEXT NOT NULL,
    sender, text, created_at, FOREIGN KEY (conversation_id) REFERENCES
    conversations(id) ON DELETE CASCADE)]. *)
Record MessageRow := mkMessage {
  id : jsstring;
  conversation_id : jsstring;
  sender : Sender;
  text : jsstring;
  created_at : Z
}.

(** Each table is the list of its rows in rowid order: an INSERT takes
    a rowid above every present one, so it appends; a DELETE removes
    rows in place. *)
Record Database := mkDatabase {
  conversations : list ConversationRow;
  messages : list MessageRow
}.

Definition empty : Database := mkDatabase [] [].

Definition has_conversation (cid : jsstring) (d : Database) : bool :=
  existsb (fun c => Js.eqb (conv_id c) cid) (conversations d).

Definition has_message (mid : jsstring) (d : Database) : bool :=
  existsb (fun m => Js.eqb (id m) mid) (messages d).

(** [SELECT ... FROM conversations WHERE id = ?] with [.get]. *)
Definition select_conversation (cid : jsstring) (d : Database)
  : option ConversationRow :=
  find (fun c => Js.eqb (conv_id c) cid) (conversations d).

(** [INSERT INTO conversations (id) VALUES (?)] at time [now]; [None]
    is the constraint failure on a duplicate primary key. *)
Definition insert_conversation (cid : jsstring) (now : Z) (d : Database)
  : option Database :=
  if has_conversation cid d then None
  else Some (mkDatabase (conversations d ++ [mkConversation cid now])
                        (messages d)).

(** [INSERT INTO messages (id, conversation_id, sender, text) VALUES
    (?, ?, ?, ?)] at time [now]; [None] is a constraint failure:
    duplicate primary key, or no parent row for the foreign key
    (better-sqlite3 opens databases with foreign keys enforced). *)
Definition insert_message (mid cid : jsstring) (s : Sender) (t : jsstring)
    (now : Z) (d : Database) : option Database :=
  if has_message mid d then None
  else if negb (has_conversation cid d) then None
  else Some (mkDatabase (conversations d)
                        (messages d ++ [mkMessage mid cid s t now])).

Definition of_conversation (cid : jsstring) (m : MessageRow) : bool :=
  Js.eqb (conversation_id m) cid.

(** The index [idx_messages_conversation ON messages (conversation_id,
    created_at)] serves both ordered queries. Its entries for one
    conversation are ordered by created_at and, among equal
    timestamps, by rowid: a stable sort of the table's rows. *)
Fixpoint insert_by_created_at (m : MessageRow) (l : list MessageRow)
  : list MessageRow :=
  match l with
  | [] => [m]
  | x :: rest =>
      if (created_at m <=? created_at x)%Z then m :: l
      else x :: insert_by_created_at m rest
  end.

Definition order_by_created_at (l : list MessageRow) : list MessageRow :=
  fold_right insert_by_created_at [] l.

Definition index_scan (cid : jsstring) (d : Database) : list MessageRow :=
  order_by_created_at (filter (of_conversation cid) (messages d)).

(** [SELECT id, sender, text, created_at FROM messages WHERE
    conversation_id = ? ORDER BY created_at ASC]: the index read
    forwards. *)
Definition select_messages_asc (cid : jsstring) (d : Database)
  : list MessageRow :=
  index_scan cid d.

(** [SELECT sender, text FROM messages WHERE conversation_id = ? ORDER
    BY created_at DESC LIMIT n]: the index read backwards, cut after
    [n] rows. *)
Definition select_recent_desc (cid : jsstring) (n : nat) (d : Database)
  : list MessageRow :=
  firstn n (rev (index_scan cid d)).

(** [SELECT COUNT( * ) FROM messages WHERE conversation_id = ?]. *)
Definition count_messages (cid : jsstring) (d : Database) : nat :=
  List.length (filter (of_conversation cid) (messages d)).

(** [DELETE FROM conversations WHERE id = ?]; ON DELETE CASCADE removes
    the messages that reference the deleted row. *)
Definition delete_conversation (cid : jsstring) (d : Database) : Database :=
  mkDatabase
    (filter (fun c => negb (Js.eqb (conv_id c) cid)) (conversations d))
    (filter (fun m => negb (of_conversation cid m)) (messages d)).

End Store.

Import Store.

(* ===================================================================== *)
(** ** The server *)
(* ===================================================================== *)

Module Server.

(** *** Requests, responses, the outside world *)

(** The body of [POST /api/message] after [express.json()]: [message] is
    any JSON value or absent; [conversationId] is a string or absent, as
    the request type [{message: string, conversationId?: string}] has
    it. *)
Record MessageRequest := mkRequest {
  req_message : option Json;
  req_conversationId : option jsstring
}.

(** What a handler sends: the status, the headers the handler sets
    itself, the JSON value of the body, and the indentation the body is
    serialised with ([res.json] prints compactly: 0). *)
Record Response := mkResponse {
  status : Z;
  headers : list (string * jsstring);
  body : Json;
  indent : nat
}.

(** [res.status(code).json(value)]. *)
Definition res_json (code : Z) (value : Json) : Response :=
  mkResponse code [] value 0.

Inductive Role := system | user_role | assistant.

Record Turn := mkTurn { role : Role; content : jsstring }.

(** [chatCompletion.choices[0]?.message?.content]: a completion carries
    a list of choices, a choice may lack its message, a message may lack
    its content. *)
Record ChatMessage := mkChatMessage { msg_content : option jsstring }.
Record Choice := mkChoice { message : option ChatMessage }.
Record ChatCompletion := mkCompletion { choices : list Choice }.

Inductive GroqOutcome :=
| Completed (c : ChatCompletion)
| Failed (e : JsError).

(** One call of [groq.chat.completions.create]; the generation
    parameters are constants of the source and are not recorded. *)
Record GroqCall := mkCall { call_model : jsstring; call_messages : list Turn }.

(** The oracles: the n-th [uuidv4()], the n-th reading of SQLite's
    CURRENT_TIMESTAMP (whole seconds), the n-th
    [new Date().toISOString()], the outcome of the n-th completion
    call. *)
Record Env := mkEnv {
  uuid_src : nat -> jsstring;
  clock : nat -> Z;
  iso_date : nat -> jsstring;
  groq : nat -> GroqOutcome
}.

Record World := mkWorld {
  db : Database;
  uuid_draws : nat;
  clock_reads : nat;
  date_reads : nat;
  groq_log : list GroqCall
}.

Definition set_db (d : Database) (w : World) : World :=
  mkWorld d (uuid_draws w) (clock_reads w) (date_reads w) (groq_log w).

Definition drew_uuid (w : World) : World :=
  mkWorld (db w) (S (uuid_draws w)) (clock_reads w) (date_reads w) (groq_log w).

Definition read_clock (w : World) : World :=
  mkWorld (db w) (uuid_draws w) (S (clock_reads w)) (date_reads w) (groq_log w).

Definition read_date (w : World) : World :=
  mkWorld (db w) (uuid_draws w) (clock_reads w) (S (date_reads w)) (groq_log w).

Definition logged (calls : list GroqCall) (w : World) : World :=
  mkWorld (db w) (uuid_draws w) (clock_reads w) (date_reads w)
          (groq_log w ++ calls).

(** *** The handler monad: state, early response, exception *)

Inductive Outcome (A : Type) : Type :=
| Next (a : A)
| Respond (r : Response)
| Throw (e : JsError).

Arguments Next {A} a.
Arguments Respond {A} r.
Arguments Throw {A} e.

Definition Handler (A : Type) : Type := World -> Outcome A * World.

Definition ret {A} (a : A) : Handler A := fun w => (Next a, w).

Definition bind {A B} (h : Handler A) (k : A -> Handler B) : Handler B :=
  fun w =>
    match h w with
    | (Next a, w') => k a w'
    | (Respond r, w') => (Respond r, w')
    | (Throw e, w') => (Throw e, w')
    end.

(** [return res....] *)
Definition respond {A} (r : Response) : Handler A := fun w => (Respond r, w).

Definition throw {A} (e : JsError) : Handler A := fun w => (Throw e, w).

Definition when (b : bool) (h : Handler unit) : Handler unit :=
  if b then h else ret tt.

(** [try { body } catch (error) { res...(handler error) }] around a whole
    route: what was written to the store before the throw stays. *)
Definition try_catch (body : Handler Response) (handler : JsError -> Response)
  : World -> Response * World :=
  fun w =>
    match body w with
    | (Next r, w') => (r, w')
    | (Respond r, w') => (r, w')
    | (Throw e, w') => (handler e, w')
    end.

Declare Scope handler_scope.
Delimit Scope handler_scope with handler.

Notation "x <- c1 ;; c2" := (bind c1 (fun x => c2))
  (at level 61, c1 at next level, right associativity) : handler_scope.
Notation "' pat <- c1 ;; c2" := (bind c1 (fun x => match x with pat => c2 end))
  (at level 61, pat pattern, c1 at next level, right associativity)
  : handler_scope.
Notation "c1 ;; c2" := (bind c1 (fun _ => c2))
  (at level 61, right associativity) : handler_scope.

Local Open Scope string_scope.
Local Open Scope list_scope.
Local Open Scope handler_scope.

(** The error better-sqlite3 throws on a constraint failure; it has no
    [status] property. *)
Definition SqliteError : JsError :=
  mkError None (js "SQLITE_CONSTRAINT").

Section Handlers.

Variable E : Env.

Definition uuidv4 : Handler jsstring :=
  fun w => (Next (uuid_src E (uuid_draws w)), drew_uuid w).

Definition toISOString : Handler jsstring :=
  fun w => (Next (iso_date E (date_reads w)), read_date w).

(** Run an INSERT: it reads CURRENT_TIMESTAMP for the row's created_at
    and throws when a constraint fails. *)
Definition run_insert (stmt : Z -> Database -> option Database) : Handler unit :=
  fun w =>
    match stmt (clock E (clock_reads w)) (db w) with
    | Some d => (Next tt, read_clock (set_db d w))
    | None => (Throw SqliteError, read_clock w)
    end.

(** Run a SELECT on the current database. *)
Definition query {A} (q : Database -> A) : Handler A :=
  fun w => (Next (q (db w)), w).

(** Run a statement that changes the store without reading the clock. *)
Definition run_update (stmt : Database -> Database) : Handler unit :=
  fun w => (Next tt, set_db (stmt (db w)) w).

(** [await groq.chat.completions.create({messages, model, ...})]: the
    call is logged and the outside world answers. *)
Definition groq_create (messages : list Turn) (model : jsstring)
  : Handler GroqOutcome :=
  fun w =>
    (Next (groq E (List.length (groq_log w))),
     logged [mkCall model messages] w).

(** *** POST /api/message *)

Definition STORE_INFO : jsstring :=
  js ("You are " ++ dquote ++ "Alex" ++ dquote ++ ", a friendly and helpful customer support agent for QuickShop e-commerce store.

IMPORTANT GUIDELINES:
1. Be conversational and natural - don't sound like a robot
2. Greet customers warmly when they say hello
3. Only share store information when asked
4. Keep responses concise but helpful

STORE INFORMATION (share when relevant):
- **Returns**: 30-day return policy. Items must be unused with original tags.
- **Shipping**: Free shipping on orders over $50. Standard: 5-7 business days.
- **Support Hours**: Monday-Friday, 9:00 AM - 6:00 PM EST
- **Contact**: support@quickshop.com or call 1-800-QUICK-SHOP
- **Payment**: We accept Visa, Mastercard, Amex, PayPal, Apple Pay

Be helpful, friendly, and professional.")%string.

Definition modelsToTry : list jsstring :=
  [ js "llama-3.1-8b-instant";
    js "llama-3.2-3b-preview";
    js "gemma2-9b-it";
    js "llama-3.2-1b-preview" ].

Definition error_body (msg : string) : Json :=
  JObj [("error", JStr (js msg))].

(** "Input validation": the three guards that open the route. Only a
    non-empty string passes [!message || typeof message !== 'string'];
    the other two look at [message.trim()], which is what the route goes
    on with. *)
Definition validate (message : option Json) : Handler jsstring :=
  match message with
  | Some (JStr m) =>
      if negb (truthy m) then
        respond (res_json 400
                   (error_body "Message is required and must be a string"))
      else
        let userMessage := trim m in
        if (List.length userMessage =? 0)%nat then
          respond (res_json 400 (error_body "Message cannot be empty"))
        else if (1000 <? List.length userMessage)%nat then
          respond (res_json 400
            (JObj [("error", JStr (js "Message too long (maximum 1000 characters)"));
                   ("length", JNum (Z.of_nat (List.length userMessage)))]))
        else ret userMessage
  | _ =>
      respond (res_json 400
                 (error_body "Message is required and must be a string"))
  end.

Definition create_conversation : Handler (jsstring * bool) :=
  convId <- uuidv4 ;;
  run_insert (insert_conversation convId) ;;
  ret (convId, true).

(** "Get or create conversation": the pair is [(convId,
    isNewConversation)]. *)
Definition resolve_conversation (conversationId : option jsstring)
  : Handler (jsstring * bool) :=
  match conversationId with
  | None => create_conversation
  | Some convId =>
      if negb (truthy convId) then create_conversation
      else
        found <- query (select_conversation convId) ;;
        match found with
        | Some _ => ret (convId, false)
        | None => create_conversation
        end
  end.

Definition turn_of_row (msg : MessageRow) : Turn :=
  mkTurn (match sender msg with user => user_role | ai => assistant end)
         (text msg).

(** The [messages] array built for Groq from the history rows. *)
Definition build_messages (history : list MessageRow) (userMessage : jsstring)
  : list Turn :=
  [mkTurn system STORE_INFO]
    ++ map turn_of_row history
    ++ [mkTurn user_role userMessage].

Definition apology : jsstring :=
  js "I apologize, but I couldn't generate a response.".

Definition first_content (c : ChatCompletion) : option jsstring :=
  match choices c with
  | [] => None
  | ch :: _ =>
      match message ch with
      | None => None
      | Some m => msg_content m
      end
  end.

(** [chatCompletion.choices[0]?.message?.content || "I apologize, ..."] *)
Definition reply_of (c : ChatCompletion) : jsstring :=
  match first_content c with
  | Some s => or_else s apology
  | None => apology
  end.

(** The variables the fallback loop assigns. *)
Record LoopVars := mkLoop {
  aiReply : jsstring;
  modelUsed : jsstring;
  lastError : option JsError
}.

(** [for (const model of modelsToTry) { try { modelUsed = model; ...;
    aiReply = ...; break } catch (error) { lastError = error; continue } }] *)
Fixpoint try_models (models : list jsstring) (messages : list Turn)
    (v : LoopVars) : Handler LoopVars :=
  match models with
  | [] => ret v
  | model :: rest =>
      r <- groq_create messages model ;;
      match r with
      | Completed c => ret (mkLoop (reply_of c) model (lastError v))
      | Failed e => try_models rest messages (mkLoop (aiReply v) model (Some e))
      end
  end.

Definition message_route (req : MessageRequest) : Handler Response :=
  userMessage <- validate (req_message req) ;;
  ' (convId, isNewConversation) <- resolve_conversation (req_conversationId req) ;;
  userMsgId <- uuidv4 ;;
  run_insert (insert_message userMsgId convId user userMessage) ;;
  history <- query (fun d => rev (select_recent_desc convId 6 d)) ;;
  let messages := build_messages history userMessage in
  v <- try_models modelsToTry messages (mkLoop [] [] None) ;;
  when (negb (truthy (aiReply v)))
       (throw (match lastError v with
               | Some e => e
               | None => mkError None (js "All models failed")
               end)) ;;
  aiMsgId <- uuidv4 ;;
  run_insert (insert_message aiMsgId convId ai (aiReply v)) ;;
  timestamp <- toISOString ;;
  ret (res_json 200
         (JObj [("success", JBool true);
                ("reply", JStr (aiReply v));
                ("conversationId", JStr convId);
                ("modelUsed", JStr (modelUsed v));
                ("isNewConversation", JBool isNewConversation);
                ("timestamp", JStr timestamp)])).

(** The route's [catch]: the status follows [error.status]. *)
Definition chat_error (error : JsError) : Response :=
  let '(errorMessage, statusCode) :=
    match err_status error with
    | Some st =>
        if (st =? 401)%Z then
          ("API authentication failed. Please check your Groq API key.", 401%Z)
        else if (st =? 429)%Z then
          ("Too many requests. Please try again in a moment.", 429%Z)
        else if (st =? 400)%Z then
          ("Service updating. Here is sample response: We have a 30-day return policy for items in original condition.", 500%Z)
        else ("Sorry, I encountered an error. Please try again.", 500%Z)
    | None => ("Sorry, I encountered an error. Please try again.", 500%Z)
    end%string in
  res_json statusCode
    (JObj [("success", JBool false);
           ("error", JStr (js errorMessage));
           ("reply", JStr (js "I'm having temporary technical issues. Our return policy is 30 days for items in original condition."));
           ("fallback", JBool true)]).

Definition post_message (req : MessageRequest) : World -> Response * World :=
  try_catch (message_route req) chat_error.

(** *** POST /api/conversation *)

Definition conversation_route : Handler Response :=
  conversationId <- uuidv4 ;;
  run_insert (insert_conversation conversationId) ;;
  ret (res_json 200
         (JObj [("success", JBool true);
                ("conversationId", JStr conversationId);
                ("message", JStr (js "New conversation started"))])).

Definition post_conversation : World -> Response * World :=
  try_catch conversation_route
    (fun _ => res_json 500 (error_body "Failed to create conversation")).

(** *** GET /api/conversation/:id and its export *)

Definition message_json (m : MessageRow) : Json :=
  JObj [("id", JStr (id m));
        ("sender", JStr (sender_text (sender m)));
        ("text", JStr (text m));
        ("created_at", JNum (created_at m))].

Definition not_found : Response :=
  res_json 404 (error_body "Conversation not found").

Definition history_route (cid : jsstring) : Handler Response :=
  conversation <- query (select_conversation cid) ;;
  match conversation with
  | None => respond not_found
  | Some conversation =>
      messages <- query (select_messages_asc cid) ;;
      ret (res_json 200
             (JObj [("success", JBool true);
                    ("conversationId", JStr cid);
                    ("createdAt", JNum (conv_created_at conversation));
                    ("messageCount", JNum (Z.of_nat (List.length messages)));
                    ("messages", JArr (map message_json messages))]))
  end.

Definition get_conversation (cid : jsstring) : World -> Response * World :=
  try_catch (history_route cid)
    (fun _ => res_json 500 (error_body "Failed to retrieve conversation history")).

(** [attachment; filename="conversation-${id}.json"] *)
Definition attachment (cid : jsstring) : jsstring :=
  js ("attachment; filename=" ++ dquote ++ "conversation-")
     ++ cid ++ js (".json" ++ dquote).

(** The export sends [JSON.stringify(payload, null, 2)] with an
    attachment header and the JSON content type. *)
Definition export_route (cid : jsstring) : Handler Response :=
  conversation <- query (select_conversation cid) ;;
  match conversation with
  | None => respond not_found
  | Some conversation =>
      messages <- query (select_messages_asc cid) ;;
      let payload :=
        JObj [("conversationId", JStr cid);
              ("createdAt", JNum (conv_created_at conversation));
              ("messageCount", JNum (Z.of_nat (List.length messages)));
              ("messages", JArr (map message_json messages))] in
      ret (mkResponse 200
             [("Content-Disposition", attachment cid);
              ("Content-Type", js "application/json")]
             payload 2)
  end.

Definition export_conversation (cid : jsstring) : World -> Response * World :=
  try_catch (export_route cid)
    (fun _ => res_json 500 (error_body "Failed to export conversation")).

(** *** DELETE /api/conversation/:id *)

Definition delete_route (cid : jsstring) : Handler Response :=
  existing <- query (select_conversation cid) ;;
  match existing with
  | None => respond not_found
  | Some _ =>
      run_update (delete_conversation cid) ;;
      (* the leftover count is only written to the console *)
      _ <- query (count_messages cid) ;;
      ret (res_json 200
             (JObj [("success", JBool true); ("conversationId", JStr cid)]))
  end.

Definition delete_conversation_route (cid : jsstring)
  : World -> Response * World :=
  try_catch (delete_route cid)
    (fun _ => res_json 500 (error_body "Failed to delete conversation")).

End Handlers.

End Server.

Import Server.

(* ===================================================================== *)
(** ** The vocabulary of the specification *)
(* ===================================================================== *)

Module Spec.

Local Open Scope string_scope.
Local Open Scope list_scope.

(** The specification names the three validation responses by a reason;
    the server tells them apart by the text of [error]. *)
Inductive Reason := missing | empty | tooLong.

Definition reason_of (r : Response) : option Reason :=
  if negb (status r =? 400)%Z then None
  else
    match field "error" (body r) with
    | Some (JStr e) =>
        if Js.eqb e (js "Message is required and must be a string")
        then Some missing
        else if Js.eqb e (js "Message cannot be empty") then Some empty
        else if Js.eqb e (js "Message too long (maximum 1000 characters)")
        then Some tooLong
        else None
    | _ => None
    end.

(** Which guard of [validate] stops a message, if any. *)
Definition validation_failure (message : option Json) : option Reason :=
  match message with
  | Some (JStr m) =>
      if negb (truthy m) then Some missing
      else if (List.length (trim m) =? 0)%nat then Some empty
      else if (1000 <? List.length (trim m))%nat then Some tooLong
      else None
  | _ => Some missing
  end.

(** A successful chat response for conversation [c]. *)
Definition replied_in (c : jsstring) (r : Response) : Prop :=
  status r = 200%Z /\ field "conversationId" (body r) = Some (JStr c).

(** A client posting one request after the other. *)
Fixpoint run_posts (E : Env) (reqs : list MessageRequest) (w : World)
  : list Response * World :=
  match reqs with
  | [] => ([], w)
  | req :: rest =>
      let (r, w1) := post_message E req w in
      let (rs, w') := run_posts E rest w1 in
      (r :: rs, w')
  end.

(** [user, ai, user, ai, ...], [n] pairs. *)
Fixpoint alternating (n : nat) : list Sender :=
  match n with
  | O => []
  | S k => user :: ai :: alternating k
  end.

(** The last [n] elements of a list, in the list's order. *)
Definition last_n {A} (n : nat) (l : list A) : list A :=
  skipn (List.length l - n) l.

(** Oldest first: no row is older than a row before it. *)
Definition chronological (rows : list MessageRow) : Prop :=
  StronglySorted (fun a b => (created_at a <= created_at b)%Z) rows.

(** Every row is strictly newer than the rows before it. *)
Definition strictly_chronological (rows : list MessageRow) : Prop :=
  StronglySorted (fun a b => (created_at a < created_at b)%Z) rows.

(** uuidv4 is taken to return new identifiers: the next [k] draws are
    pairwise distinct and name no stored row. *)
Definition uuids_fresh (E : Env) (w : World) (k : nat) : Prop :=
  let draws := map (fun i => uuid_src E (uuid_draws w + i)) (seq 0 k) in
  NoDup draws /\
  forall u, In u draws ->
            has_conversation u (db w) = false /\ has_message u (db w) = false.

End Spec.

Import Spec.

(* ===================================================================== *)
(** ** The runs of POST /api/message *)
(* ===================================================================== *)

Module Trace.

Local Open Scope string_scope.
Local Open Scope list_scope.

(** Whether the route creates a conversation: no id was sent, the id is
    the empty string, or the store has no such conversation. *)
Definition wants_new (conversationId : option jsstring) (d : Database) : bool :=
  match conversationId with
  | None => true
  | Some c => negb (truthy c) || negb (has_conversation c d)
  end.

(** The fallback loop read off the oracle: the loop variables at its
    exit and the models it called, when the log held [n] calls at its
    entry. *)
Fixpoint loop_outcome (E : Env) (n : nat) (models : list jsstring)
    (v : LoopVars) : LoopVars * list jsstring :=
  match models with
  | [] => (v, [])
  | model :: rest =>
      match groq E n with
      | Completed c => (mkLoop (reply_of c) model (lastError v), [model])
      | Failed e =>
          let (v', called) :=
            loop_outcome E (S n) rest (mkLoop (aiReply v) model (Some e)) in
          (v', model :: called)
      end
  end.

Definition calls_of (called : list jsstring) (messages : list Turn)
  : list GroqCall :=
  map (fun model => mkCall model messages) called.

(** What the route throws when the loop leaves [aiReply] empty. *)
Definition exhausted (v : LoopVars) : JsError :=
  match lastError v with
  | Some e => e
  | None => mkError None (js "All models failed")
  end.

Definition success_body (v : LoopVars) (convId : jsstring) (isNew : bool)
    (timestamp : jsstring) : Json :=
  JObj [("success", JBool true);
        ("reply", JStr (aiReply v));
        ("conversationId", JStr convId);
        ("modelUsed", JStr (modelUsed v));
        ("isNewConversation", JBool isNew);
        ("timestamp", JStr timestamp)].

(** The six ways a request runs, from the world [w] it starts in to the
    response and the world it ends in. [w1] is the world once the
    conversation is resolved, [w2] once the user's message is stored,
    [w3] once the fallback loop is left. *)
Inductive PostRun (E : Env) (req : MessageRequest) (w : World)
  : Response -> World -> Prop :=
| Run_rejected r :
    validate (req_message req) w = (Respond r, w) ->
    PostRun E req w r w
| Run_unresolved userMessage e w1 :
    validate (req_message req) w = (Next userMessage, w) ->
    resolve_conversation E (req_conversationId req) w = (Throw e, w1) ->
    PostRun E req w (chat_error e) w1
| Run_user_unsaved userMessage convId isNew w1 :
    validate (req_message req) w = (Next userMessage, w) ->
    resolve_conversation E (req_conversationId req) w
      = (Next (convId, isNew), w1) ->
    insert_message (uuid_src E (uuid_draws w1)) convId user userMessage
      (clock E (clock_reads w1)) (db w1) = None ->
    PostRun E req w (chat_error SqliteError) (read_clock (drew_uuid w1))
| Run_exhausted userMessage convId isNew w1 d2 w2 v called w3 :
    validate (req_message req) w = (Next userMessage, w) ->
    resolve_conversation E (req_conversationId req) w
      = (Next (convId, isNew), w1) ->
    insert_message (uuid_src E (uuid_draws w1)) convId user userMessage
      (clock E (clock_reads w1)) (db w1) = Some d2 ->
    w2 = read_clock (set_db d2 (drew_uuid w1)) ->
    loop_outcome E (List.length (groq_log w2)) modelsToTry (mkLoop [] [] None)
      = (v, called) ->
    w3 = logged (calls_of called
                   (build_messages (rev (select_recent_desc convId 6 d2))
                      userMessage)) w2 ->
    truthy (aiReply v) = false ->
    PostRun E req w (chat_error (exhausted v)) w3
| Run_reply_unsaved userMessage convId isNew w1 d2 w2 v called w3 :
    validate (req_message req) w = (Next userMessage, w) ->
    resolve_conversation E (req_conversationId req) w
      = (Next (convId, isNew), w1) ->
    insert_message (uuid_src E (uuid_draws w1)) convId user userMessage
      (clock E (clock_reads w1)) (db w1) = Some d2 ->
    w2 = read_clock (set_db d2 (drew_uuid w1)) ->
    loop_outcome E (List.length (groq_log w2)) modelsToTry (mkLoop [] [] None)
      = (v, called) ->
    w3 = logged (calls_of called
                   (build_messages (rev (select_recent_desc convId 6 d2))
                      userMessage)) w2 ->
    truthy (aiReply v) = true ->
    insert_message (uuid_src E (uuid_draws w3)) convId ai (aiReply v)
      (clock E (clock_reads w3)) (db w3) = None ->
    PostRun E req w (chat_error SqliteError) (read_clock (drew_uuid w3))
| Run_replied userMessage convId isNew w1 d2 w2 v called w3 d4 :
    validate (req_message req) w = (Next userMessage, w) ->
    resolve_conversation E (req_conversationId req) w
      = (Next (convId, isNew), w1) ->
    insert_message (uuid_src E (uuid_draws w1)) convId user userMessage
      (clock E (clock_reads w1)) (db w1) = Some d2 ->
    w2 = read_clock (set_db d2 (drew_uuid w1)) ->
    loop_outcome E (List.length (groq_log w2)) modelsToTry (mkLoop [] [] None)
      = (v, called) ->
    w3 = logged (calls_of called
                   (build_messages (rev (select_recent_desc convId 6 d2))
                      userMessage)) w2 ->
    truthy (aiReply v) = true ->
    insert_message (uuid_src E (uuid_draws w3)) convId ai (aiReply v)
      (clock E (clock_reads w3)) (db w3) = Some d4 ->
    PostRun E req w
      (res_json 200 (success_body v convId isNew (iso_date E (date_reads w3))))
      (read_date (read_clock (set_db d4 (drew_uuid w3)))).

(** The request is answered by [model] with [reply] after the models
    [called] were called, in that order and with one same turn sequence:
    the response is the success response naming [model], and the store
    gained the user's message followed by one [ai] message holding
    [reply], both in the conversation of the response. *)
Definition answered_by (E : Env) (req : MessageRequest) (w : World)
    (model reply : jsstring) (called : list jsstring) : Prop :=
  exists m convId isNew uid aid tu ta msgs w',
    req_message req = Some (JStr m)
    /\ post_message E req w
       = (res_json 200
            (JObj [("success", JBool true);
                   ("reply", JStr reply);
                   ("conversationId", JStr convId);
                   ("modelUsed", JStr model);
                   ("isNewConversation", JBool isNew);
                   ("timestamp", JStr (iso_date E (date_reads w)))]), w')
    /\ messages (db w')
       = messages (db w)
           ++ [mkMessage uid convId user (trim m) tu;
               mkMessage aid convId ai reply ta]
    /\ groq_log w' = groq_log w ++ calls_of called msgs.

(** What holds of conversation [c]'s rows, in rowid order, after [n]
    exchanges: senders alternate, timestamps do not decrease, and none
    is ahead of the clock. *)
Definition settled (E : Env) (c : jsstring) (n : nat) (w : World) : Prop :=
  let rows := filter (of_conversation c) (messages (db w)) in
  map sender rows = alternating n
  /\ chronological rows
  /\ Forall (fun m => (created_at m <= clock E (clock_reads w))%Z) rows.

End Trace.

Import Trace.

(* ===================================================================== *)
(** ** The remaining routes and the route table *)
(* ===================================================================== *)

Module Routes.

Local Open Scope string_scope.
Local Open Scope list_scope.
Local Open Scope handler_scope.

(** *** GET /health *)

Definition health (E : Env) : World -> Response * World :=
  fun w =>
    (res_json 200
       (JObj [("status", JStr (js "ok"));
              ("timestamp", JStr (iso_date E (date_reads w)));
              ("service", JStr (js "QuickShop Support Chat API"));
              ("model", JStr (js "llama-3.1-8b-instant"))]),
     read_date w).

(** *** GET /api/conversations *)

(** One entry of the list: the count is a query of its own,
    [(cntRow && cntRow.cnt) ? cntRow.cnt : 0]. *)
Definition conversation_summary (d : Database) (r : ConversationRow) : Json :=
  JObj [("id", JStr (conv_id r));
        ("createdAt", JNum (conv_created_at r));
        ("messageCount", JNum (Z.of_nat (count_messages (conv_id r) d)))].

(** [SELECT id, created_at FROM conversations ORDER BY created_at DESC]
    has no index to read: [newest_first] stands for what SQLite's sorter
    returns. Which order it leaves rows of one same second in is not
    fixed by the statement, so the sorter is an argument of the route. *)
Definition list_route
    (newest_first : list ConversationRow -> list ConversationRow)
  : Handler Response :=
  rows <- query (fun d => newest_first (conversations d)) ;;
  conversations <- query (fun d => map (conversation_summary d) rows) ;;
  ret (res_json 200
         (JObj [("success", JBool true);
                ("conversations", JArr conversations)])).

Definition list_conversations
    (newest_first : list ConversationRow -> list ConversationRow)
  : World -> Response * World :=
  try_catch (list_route newest_first)
    (fun _ => res_json 500 (error_body "Failed to list conversations")).

(** What [ORDER BY created_at DESC] promises of the sorter: the same
    rows, none newer than a row before it. *)
Definition sorts_newest_first
    (newest_first : list ConversationRow -> list ConversationRow) : Prop :=
  forall rows,
    (forall r, In r (newest_first rows) <-> In r rows)
    /\ List.length (newest_first rows) = List.length rows
    /\ StronglySorted
         (fun a b => (conv_created_at b <= conv_created_at a)%Z)
         (newest_first rows).

(** One such sorter: insertion from the last row to the first, a row
    going in front of the rows that are not newer. *)
Fixpoint insert_newest (r : ConversationRow) (l : list ConversationRow)
  : list ConversationRow :=
  match l with
  | [] => [r]
  | x :: rest =>
      if (conv_created_at x <=? conv_created_at r)%Z then r :: l
      else x :: insert_newest r rest
  end.

Definition by_insertion (rows : list ConversationRow) : list ConversationRow :=
  fold_right insert_newest [] rows.

(** *** The route table *)

Inductive Request :=
| GetHealth
| PostConversation
| PostMessage (req : MessageRequest)
| GetConversation (cid : jsstring)
| ExportConversation (cid : jsstring)
| DeleteConversation (cid : jsstring)
| ListConversations.

Definition serve (E : Env)
    (newest_first : list ConversationRow -> list ConversationRow)
    (rq : Request) : World -> Response * World :=
  match rq with
  | GetHealth => health E
  | PostConversation => post_conversation E
  | PostMessage req => post_message E req
  | GetConversation cid => get_conversation cid
  | ExportConversation cid => export_conversation cid
  | DeleteConversation cid => delete_conversation_route cid
  | ListConversations => list_conversations newest_first
  end.

(** The server answering one request after the other. *)
Fixpoint serve_all (E : Env)
    (newest_first : list ConversationRow -> list ConversationRow)
    (rqs : list Request) (w : World) : list Response * World :=
  match rqs with
  | [] => ([], w)
  | rq :: rest =>
      let (r, w1) := serve E newest_first rq w in
      let (rs, w') := serve_all E newest_first rest w1 in
      (r :: rs, w')
  end.

End Routes.

Import Routes.

(* ===================================================================== *)
(** ** The model probe (check-models) *)
(* ===================================================================== *)

Module Probe.

Local Open Scope string_scope.
Local Open Scope list_scope.
Local Open Scope handler_scope.

Definition modelsToTest : list jsstring :=
  [ js "llama-3.1-8b-instant";
    js "llama-3.2-1b-preview";
    js "llama-3.2-3b-preview";
    js "llama-3.3-70b-versatile";
    js "gemma2-9b-it";
    js "mixtral-8x7b-32768";
    js "qwen-2.5-32b";
    js "llama3-70b-8192" ].

Definition test_messages : list Turn :=
  [ mkTurn system (js "You are a test assistant.");
    mkTurn user_role (js ("Say " ++ dquote ++ "Hello" ++ dquote ++ " only."))%string ].

(** [for (const model of modelsToTest) { try { await create(...);
    return model } catch { log } await sleep(200) }]: what is written to
    the console and the pause between two tries leave no trace here. *)
Fixpoint check_loop (E : Env) (models : list jsstring)
  : Handler (option jsstring) :=
  match models with
  | [] => ret None
  | model :: rest =>
      r <- groq_create E test_messages model ;;
      match r with
      | Completed _ => ret (Some model)
      | Failed _ => check_loop E rest
      end
  end.

Definition checkModels (E : Env) : Handler (option jsstring) :=
  check_loop E modelsToTest.

End Probe.

Import Probe.

(* ===================================================================== *)
(** ** The chat page: what it posts *)
(* ===================================================================== *)

Module Client.

(** The request [sendMessage] posts, from the text of the input box, the
    [loading] flag and the page's [conversationId] (the empty string
    when none is selected): nothing when [!input.trim() || loading],
    else [{message: input.trim(), conversationId: conversationId ||
    undefined}], an undefined field being left out of the JSON body. *)
Definition sendMessage_request (input : jsstring) (loading : bool)
    (conversationId : jsstring) : option MessageRequest :=
  if negb (truthy (trim input)) || loading then None
  else Some (mkRequest (Some (JStr (trim input)))
               (if truthy conversationId then Some conversationId else None)).

End Client.

Import Client.

(* ===================================================================== *)
(** ** Properties of stores *)
(* ===================================================================== *)

Module Laws.

(** The constraints of the schema: each table's primary key names one
    row, and every message references a stored conversation. *)
Definition consistent (d : Database) : Prop :=
  NoDup (map conv_id (conversations d))
  /\ NoDup (map id (messages d))
  /\ Forall (fun m => has_conversation (conversation_id m) d = true)
            (messages d).

(** What the chat route lets into [text]: a user's text is trimmed and
    has 1 to 1000 code units, a reply is not empty. *)
Definition text_ok (m : MessageRow) : Prop :=
  match sender m with
  | user => trim (text m) = text m /\ 1 <= List.length (text m) <= 1000
  | ai => text m <> []
  end.

(** The string is empty or its first code unit is not white space. *)
Definition starts_clean (s : jsstring) : Prop :=
  match s with
  | [] => True
  | c :: _ => is_white_space c = false
  end.

End Laws.

Import Laws.

(* ===================================================================== *)
(** ** Sample environments and worlds *)
(* ===================================================================== *)

Module Sample.

Definition hi : ChatCompletion :=
  mkCompletion [mkChoice (Some (mkChatMessage (Some (js "Hi there!"))))].

Definition silent : ChatCompletion :=
  mkCompletion [mkChoice (Some (mkChatMessage None))].

Definition unavailable : JsError :=
  mkError (Some 404%Z) (js "model not found").

(** Every completion call answers; the clock advances one second per
    reading. *)
Definition ticking : Env :=
  mkEnv (fun n => [N.of_nat n]) (fun n => Z.of_nat n) (fun _ => js "now")
        (fun _ => Completed hi).

(** The same, with every reading of the clock inside one second. *)
Definition same_second : Env :=
  mkEnv (fun n => [N.of_nat n]) (fun _ => 1700000000%Z) (fun _ => js "now")
        (fun _ => Completed hi).

(** The first model is unavailable, the second answers. *)
Definition first_down : Env :=
  mkEnv (fun n => [N.of_nat n]) (fun n => Z.of_nat n) (fun _ => js "now")
        (fun n => match n with
                  | O => Failed unavailable
                  | _ => Completed hi
                  end).

(** The first model answers with no content. *)
Definition speechless : Env :=
  mkEnv (fun n => [N.of_nat n]) (fun n => Z.of_nat n) (fun _ => js "now")
        (fun _ => Completed silent).

Definition fresh_world : World := mkWorld Store.empty 0 0 0 [].

Definition hello : MessageRequest :=
  mkRequest (Some (JStr (js "Hello!"))) None.

(** A store with one conversation of two messages; uuidv4 gave it the
    id [[0]]. *)
Definition one_chat : World :=
  snd (post_message ticking hello fresh_world).

Definition thanks : MessageRequest :=
  mkRequest (Some (JStr (js "Thanks!"))) (Some [0%N]).

(** A request naming a conversation no store here has. *)
Definition stranger : MessageRequest :=
  mkRequest (Some (JStr (js "Anyone there?"))) (Some (js "no-such-id")).

(** The fourth call fails with a rate limit, after three other failures. *)
Definition throttled : Env :=
  mkEnv (fun n => [N.of_nat n]) (fun n => Z.of_nat n) (fun _ => js "now")
        (fun n => match n with
                  | 3 => Failed (mkError (Some 429%Z) (js "slow down"))
                  | _ => Failed unavailable
                  end).

(** uuidv4 returning one same identifier again and again. *)
Definition stuck_uuid : Env :=
  mkEnv (fun _ => [0%N]) (fun n => Z.of_nat n) (fun _ => js "now")
        (fun _ => Completed hi).

(** The first two models of the probe's list are gone, the third
    answers. *)
Definition third_up : Env :=
  mkEnv (fun n => [N.of_nat n]) (fun n => Z.of_nat n) (fun _ => js "now")
        (fun n => match n with
                  | 0 | 1 => Failed unavailable
                  | _ => Completed hi
                  end).

(** A second conversation beside the first. *)
Definition two_chats : World :=
  snd (post_message ticking stranger one_chat).

End Sample.

(* ===================================================================== *)
(** ** Facts about strings and the store *)
(* ===================================================================== *)

Section StringFacts.

Lemma eqb_refl (a : jsstring) : Js.eqb a a = true.
Proof.
  induction a as [|x a IH]; simpl; [reflexivity|].
  now rewrite N.eqb_refl, IH.
Qed.

Lemma eqb_eq (a b : jsstring) : Js.eqb a b = true <-> a = b.
Proof.
  split.
  - revert b. induction a as [|x a IH]; intros [|y b] H; simpl in H;
      try discriminate; [reflexivity|].
    apply andb_true_iff in H as [Hx Hr].
    apply N.eqb_eq in Hx. apply IH in Hr. now subst.
  - intros ->. apply eqb_refl.
Qed.

Lemma eqb_neq (a b : jsstring) : Js.eqb a b = false <-> a <> b.
Proof.
  rewrite <- eqb_eq. destruct (Js.eqb a b); split; congruence.
Qed.

Lemma trimStart_blank (s : jsstring) :
  forallb is_white_space s = true -> trimStart s = [].
Proof.
  induction s as [|c s IH]; simpl; [reflexivity|].
  intros H. apply andb_true_iff in H as [Hc Hs].
  rewrite Hc. now apply IH.
Qed.

Lemma trim_blank (s : jsstring) :
  forallb is_white_space s = true -> trim s = [].
Proof.
  intros H. unfold trim, trimEnd. now rewrite (trimStart_blank s H).
Qed.

End StringFacts.

Section StoreFacts.

Lemma select_conversation_has (cid : jsstring) (d : Database) :
  has_conversation cid d = true ->
  exists row, select_conversation cid d = Some row /\ conv_id row = cid.
Proof.
  unfold has_conversation, select_conversation.
  induction (conversations d) as [|c l IH]; simpl; [discriminate|].
  destruct (Js.eqb (conv_id c) cid) eqn:Hc; simpl.
  - intros _. exists c. split; [reflexivity | now apply eqb_eq].
  - exact IH.
Qed.

Lemma select_conversation_none (cid : jsstring) (d : Database) :
  has_conversation cid d = false -> select_conversation cid d = None.
Proof.
  unfold has_conversation, select_conversation.
  induction (conversations d) as [|c l IH]; simpl; [reflexivity|].
  destruct (Js.eqb (conv_id c) cid); simpl; [discriminate | exact IH].
Qed.

Lemma select_conversation_found (cid : jsstring) (d : Database) row :
  select_conversation cid d = Some row -> has_conversation cid d = true.
Proof.
  destruct (has_conversation cid d) eqn:H; [reflexivity|].
  rewrite (select_conversation_none _ _ H). discriminate.
Qed.

Lemma deleted_conversation_gone (cid : jsstring) (d : Database) :
  has_conversation cid (delete_conversation cid d) = false.
Proof.
  unfold has_conversation, delete_conversation; simpl.
  induction (conversations d) as [|c l IH]; simpl; [reflexivity|].
  destruct (Js.eqb (conv_id c) cid) eqn:Hc; simpl; [exact IH|].
  now rewrite Hc.
Qed.

Lemma deleted_messages_gone (cid : jsstring) (d : Database) :
  filter (of_conversation cid) (messages (delete_conversation cid d)) = [].
Proof.
  unfold delete_conversation; simpl.
  induction (messages d) as [|m l IH]; simpl; [reflexivity|].
  destruct (of_conversation cid m) eqn:Hm; simpl; [exact IH|].
  now rewrite Hm.
Qed.

End StoreFacts.

(* ===================================================================== *)
(** ** Deleting a conversation *)
(* ===================================================================== *)

Section Delete.

Local Open Scope string_scope.

(** C1. For every stored conversation id, DELETE /api/conversation/:id
    answers 200 with [{success: true, conversationId}]; afterwards GET
    /api/conversation/:id answers 404 and the messages table holds no
    row of that conversation: the cascade removed them all. *)
Theorem delete_then_history_not_found (w : World) (cid : jsstring) :
  has_conversation cid (db w) = true ->
  exists w',
    delete_conversation_route cid w
      = (res_json 200 (JObj [("success", JBool true);
                             ("conversationId", JStr cid)]), w')
    /\ fst (get_conversation cid w') = not_found
    /\ status (fst (get_conversation cid w')) = 404%Z
    /\ filter (of_conversation cid) (messages (db w')) = []
    /\ count_messages cid (db w') = 0.
Proof.
  intros Hstored.
  destruct (select_conversation_has _ _ Hstored) as (row & Hrow & _).
  exists (set_db (delete_conversation cid (db w)) w).
  assert (Hget : fst (get_conversation cid
                        (set_db (delete_conversation cid (db w)) w))
                 = not_found).
  { unfold get_conversation, try_catch, history_route, bind, query; simpl.
    now rewrite (select_conversation_none _ _ (deleted_conversation_gone cid (db w))). }
  repeat split.
  - unfold delete_conversation_route, try_catch, delete_route, bind, query.
    simpl. rewrite Hrow. reflexivity.
  - exact Hget.
  - now rewrite Hget.
  - apply deleted_messages_gone.
  - unfold count_messages. simpl db. now rewrite deleted_messages_gone.
Qed.

Lemma delete_then_history_not_found_witness :
  exists w',
    delete_conversation_route [0%N] Sample.one_chat
      = (res_json 200 (JObj [("success", JBool true);
                             ("conversationId", JStr [0%N])]), w')
    /\ fst (get_conversation [0%N] w') = not_found
    /\ status (fst (get_conversation [0%N] w')) = 404%Z
    /\ filter (of_conversation [0%N]) (messages (db w')) = []
    /\ count_messages [0%N] (db w') = 0.
Proof.
  apply (delete_then_history_not_found Sample.one_chat [0%N]).
  vm_compute. reflexivity.
Defined.

End Delete.

(* ===================================================================== *)
(** ** Input validation of POST /api/message *)
(* ===================================================================== *)

Section Validation.

Local Open Scope string_scope.

Variable E : Env.

Lemma trim_nil : trim [] = [].
Proof. reflexivity. Qed.

Lemma validate_missing (message : option Json) (w : World) :
  validation_failure message = Some missing ->
  validate message w
  = (Respond (res_json 400
                (error_body "Message is required and must be a string")), w).
Proof.
  unfold validation_failure, validate.
  destruct message as [[| | | m | |]|]; try reflexivity.
  destruct (truthy m); simpl; [|reflexivity].
  destruct (List.length (trim m) =? 0)%nat; [discriminate|].
  destruct (1000 <? List.length (trim m))%nat; discriminate.
Qed.

Lemma validate_empty (message : option Json) (w : World) :
  validation_failure message = Some empty ->
  validate message w
  = (Respond (res_json 400 (error_body "Message cannot be empty")), w).
Proof.
  unfold validation_failure, validate.
  destruct message as [[| | | m | |]|]; try discriminate.
  destruct (truthy m); simpl; [|discriminate].
  destruct (List.length (trim m) =? 0)%nat; [reflexivity|].
  destruct (1000 <? List.length (trim m))%nat; discriminate.
Qed.

Lemma validate_tooLong (message : option Json) (w : World) :
  validation_failure message = Some tooLong ->
  exists m,
    message = Some (JStr m) /\ 1000 < List.length (trim m) /\
    validate message w
    = (Respond
         (res_json 400
            (JObj [("error", JStr (js "Message too long (maximum 1000 characters)"));
                   ("length", JNum (Z.of_nat (List.length (trim m))))])), w).
Proof.
  unfold validation_failure, validate.
  destruct message as [[| | | m | |]|]; try discriminate.
  destruct (truthy m); simpl; [|discriminate].
  destruct (List.length (trim m) =? 0)%nat; [discriminate|].
  destruct (1000 <? List.length (trim m))%nat eqn:Hlen; [|discriminate].
  intros _. exists m. apply Nat.ltb_lt in Hlen. auto.
Qed.

Lemma validate_passes (message : option Json) (w : World) :
  validation_failure message = None ->
  exists m,
    message = Some (JStr m) /\
    0 < List.length (trim m) <= 1000 /\
    validate message w = (Next (trim m), w).
Proof.
  unfold validation_failure, validate.
  destruct message as [[| | | m | |]|]; try discriminate.
  destruct (truthy m); simpl; [|discriminate].
  destruct (List.length (trim m) =? 0)%nat eqn:Hz; [discriminate|].
  destruct (1000 <? List.length (trim m))%nat eqn:Hlen; [discriminate|].
  intros _. exists m. apply Nat.eqb_neq in Hz. apply Nat.ltb_ge in Hlen.
  repeat split; [lia | exact Hlen].
Qed.

(** A response sent by [validate] is the route's response, and the world
    is the one [validate] left. *)
Lemma validate_responds (req : MessageRequest) (w w1 : World) (r : Response) :
  validate (req_message req) w = (Respond r, w1) ->
  post_message E req w = (r, w1).
Proof.
  intros H. unfold post_message, try_catch, message_route, bind.
  now rewrite H.
Qed.

Lemma rejected (req : MessageRequest) (w : World) (reason : Reason) :
  validation_failure (req_message req) = Some reason ->
  exists r, post_message E req w = (r, w)
            /\ status r = 400%Z /\ reason_of r = Some reason.
Proof.
  intros H. destruct reason.
  - eexists. split; [apply validate_responds, validate_missing, H|].
    split; reflexivity.
  - eexists. split; [apply validate_responds, validate_empty, H|].
    split; reflexivity.
  - destruct (validate_tooLong _ w H) as (m & _ & _ & Hv).
    eexists. split; [apply validate_responds, Hv|].
    split; reflexivity.
Qed.

(** C6. When the message fails validation (missing, empty or too long),
    POST /api/message answers 400 with that reason and leaves the world
    as it found it: no conversation row and no message row is inserted,
    no identifier or timestamp is drawn, and the completion provider is
    not called. *)
Theorem validation_precedes_io (req : MessageRequest) (w : World)
    (reason : Reason) :
  validation_failure (req_message req) = Some reason ->
  exists r,
    post_message E req w = (r, w)
    /\ status r = 400%Z
    /\ reason_of r = Some reason
    /\ conversations (db (snd (post_message E req w))) = conversations (db w)
    /\ messages (db (snd (post_message E req w))) = messages (db w)
    /\ groq_log (snd (post_message E req w)) = groq_log w.
Proof.
  intros H. destruct (rejected req w H) as (r & Hrun & Hst & Hre).
  exists r. rewrite Hrun. simpl. auto 6.
Qed.

(** C2, as the server has it. A message of white space only is answered
    400 and nothing is stored; the reason is [empty] when the message
    has at least one character, and [missing] for the empty string,
    which the first guard [!message] already stops. *)
Theorem blank_message_rejected (m : jsstring) (cid : option jsstring)
    (w : World) :
  forallb is_white_space m = true ->
  let r := res_json 400
             (error_body (if truthy m then "Message cannot be empty"
                          else "Message is required and must be a string")) in
  post_message E (mkRequest (Some (JStr m)) cid) w = (r, w)
  /\ status r = 400%Z
  /\ reason_of r = Some (if truthy m then empty else missing).
Proof.
  intros Hblank r. subst r.
  destruct m as [|c m].
  - split; [|split; reflexivity].
    apply validate_responds. reflexivity.
  - split; [|split; reflexivity].
    apply validate_responds. simpl req_message. unfold validate.
    rewrite (trim_blank _ Hblank). reflexivity.
Qed.

(** C7, as the server has it. A message whose text after trimming has
    1001 code units is answered 400 with reason [tooLong] and
    [length: 1001]; nothing is stored. *)
Theorem too_long_rejected (m : jsstring) (cid : option jsstring) (w : World) :
  List.length (trim m) = 1001 ->
  let r := res_json 400
             (JObj [("error", JStr (js "Message too long (maximum 1000 characters)"));
                    ("length", JNum 1001)]) in
  post_message E (mkRequest (Some (JStr m)) cid) w = (r, w)
  /\ reason_of r = Some tooLong
  /\ field "length" (body r) = Some (JNum 1001).
Proof.
  intros Hlen r. subst r.
  split; [|split; reflexivity].
  apply validate_responds. simpl req_message. unfold validate.
  destruct m as [|c m]; [discriminate Hlen|].
  cbn [truthy negb]. cbv zeta. rewrite Hlen. reflexivity.
Qed.

End Validation.

Section ValidationExamples.

Local Open Scope string_scope.

Lemma validation_precedes_io_witness :
  exists r,
    post_message Sample.ticking (mkRequest None None) Sample.one_chat
    = (r, Sample.one_chat)
    /\ status r = 400%Z
    /\ reason_of r = Some missing
    /\ conversations (db (snd (post_message Sample.ticking (mkRequest None None)
                                 Sample.one_chat)))
       = conversations (db Sample.one_chat)
    /\ messages (db (snd (post_message Sample.ticking (mkRequest None None)
                            Sample.one_chat)))
       = messages (db Sample.one_chat)
    /\ groq_log (snd (post_message Sample.ticking (mkRequest None None)
                        Sample.one_chat))
       = groq_log Sample.one_chat.
Proof.
  apply (validation_precedes_io Sample.ticking (mkRequest None None)
           Sample.one_chat (reason := missing)).
  reflexivity.
Defined.

Lemma blank_message_rejected_witness :
  post_message Sample.ticking (mkRequest (Some (JStr (js "   "))) None)
    Sample.fresh_world
  = (res_json 400 (error_body "Message cannot be empty"), Sample.fresh_world)
  /\ status (res_json 400 (error_body "Message cannot be empty")) = 400%Z
  /\ reason_of (res_json 400 (error_body "Message cannot be empty"))
     = Some empty.
Proof.
  apply (blank_message_rejected Sample.ticking (js "   ") None
           Sample.fresh_world).
  reflexivity.
Defined.

(** The empty string is answered by the first guard: the reason is
    [missing], not [empty]. *)
Lemma empty_string_reported_missing :
  let r := fst (post_message Sample.ticking
                  (mkRequest (Some (JStr [])) None) Sample.fresh_world) in
  status r = 400%Z
  /\ body r = error_body "Message is required and must be a string"
  /\ reason_of r = Some missing
  /\ reason_of r <> Some empty.
Proof.
  vm_compute. repeat split; discriminate.
Qed.

Lemma too_long_rejected_witness :
  List.length (trim (repeat 97%N 1001)) = 1001
  /\ post_message Sample.ticking
       (mkRequest (Some (JStr (repeat 97%N 1001))) None) Sample.fresh_world
     = (res_json 400
          (JObj [("error", JStr (js "Message too long (maximum 1000 characters)"));
                 ("length", JNum 1001)]), Sample.fresh_world).
Proof.
  split; [vm_compute; reflexivity|].
  apply (too_long_rejected Sample.ticking (repeat 97%N 1001) None
           Sample.fresh_world).
  vm_compute. reflexivity.
Defined.

(** A message of 1001 code units, one letter and a thousand spaces, is
    accepted: its trimmed text has length 1. *)
Lemma padded_message_accepted :
  let m := 97%N :: repeat 32%N 1000 in
  let r := fst (post_message Sample.ticking (mkRequest (Some (JStr m)) None)
                  Sample.fresh_world) in
  List.length m = 1001
  /\ status r = 200%Z
  /\ reason_of r = None
  /\ field "length" (body r) = None.
Proof.
  vm_compute. repeat split.
Qed.

End ValidationExamples.

(* ===================================================================== *)
(** ** Every request runs in one of the six ways *)
(* ===================================================================== *)

Section Runs.

Variable E : Env.

Lemma logged_nil (w : World) : logged [] w = w.
Proof. destruct w. unfold logged. simpl. now rewrite app_nil_r. Qed.

Lemma logged_logged (a b : list GroqCall) (w : World) :
  logged b (logged a w) = logged (a ++ b) w.
Proof. unfold logged. simpl. now rewrite app_assoc. Qed.

Lemma try_models_run (models : list jsstring) (msgs : list Turn) :
  forall (v : LoopVars) (w : World),
    try_models E models msgs v w
    = (Next (fst (loop_outcome E (List.length (groq_log w)) models v)),
       logged (calls_of (snd (loop_outcome E (List.length (groq_log w)) models v))
                 msgs) w).
Proof.
  induction models as [|model rest IH]; intros v w; simpl.
  - now rewrite logged_nil.
  - unfold bind, groq_create.
    destruct (groq E (List.length (groq_log w))) as [c|e]; [reflexivity|].
    rewrite IH. simpl groq_log. rewrite length_app, Nat.add_1_r. simpl.
    destruct (loop_outcome E (S (List.length (groq_log w))) rest
                (mkLoop (aiReply v) model (Some e))) as [v' called].
    simpl. now rewrite logged_logged.
Qed.

Lemma validate_pure (message : option Json) (w : World) :
  snd (validate message w) = w /\
  forall e, fst (validate message w) <> Throw e.
Proof.
  unfold validate.
  destruct message as [[| | | m | |]|]; try (split; [reflexivity|discriminate]).
  destruct (truthy m); simpl; [|split; [reflexivity|discriminate]].
  destruct (List.length (trim m) =? 0)%nat; [split; [reflexivity|discriminate]|].
  destruct (1000 <? List.length (trim m))%nat; split;
    try reflexivity; discriminate.
Qed.

Lemma create_conversation_run (w : World) :
  create_conversation E w
  = match insert_conversation (uuid_src E (uuid_draws w))
            (clock E (clock_reads w)) (db w) with
    | Some d => (Next (uuid_src E (uuid_draws w), true),
                 read_clock (set_db d (drew_uuid w)))
    | None => (Throw SqliteError, read_clock (drew_uuid w))
    end.
Proof.
  unfold create_conversation, bind, uuidv4, run_insert. simpl.
  destruct (insert_conversation _ _ _); reflexivity.
Qed.

Lemma resolve_conversation_run (cid : option jsstring) (w : World) :
  resolve_conversation E cid w
  = if wants_new cid (db w) then create_conversation E w
    else match cid with
         | Some c => (Next (c, false), w)
         | None => create_conversation E w
         end.
Proof.
  unfold resolve_conversation, wants_new.
  destruct cid as [c|]; [|reflexivity].
  destruct (truthy c); simpl; [|reflexivity].
  unfold bind, query.
  destruct (has_conversation c (db w)) eqn:Hc; simpl.
  - destruct (select_conversation_has _ _ Hc) as (row & -> & _). reflexivity.
  - now rewrite (select_conversation_none _ _ Hc).
Qed.

Lemma resolve_never_responds (cid : option jsstring) (w w1 : World) r :
  resolve_conversation E cid w <> (Respond r, w1).
Proof.
  rewrite resolve_conversation_run.
  destruct (wants_new cid (db w)), cid; try discriminate;
    rewrite create_conversation_run;
    destruct (insert_conversation _ _ _); discriminate.
Qed.

Lemma bind_next {A B} {h : Handler A} (k : A -> Handler B) {w a w1} :
  h w = (Next a, w1) -> bind h k w = k a w1.
Proof. intros H. unfold bind. now rewrite H. Qed.

Lemma bind_respond {A B} {h : Handler A} (k : A -> Handler B) {w r w1} :
  h w = (Respond r, w1) -> bind h k w = (Respond r, w1).
Proof. intros H. unfold bind. now rewrite H. Qed.

Lemma bind_throw {A B} {h : Handler A} (k : A -> Handler B) {w e w1} :
  h w = (Throw e, w1) -> bind h k w = (Throw e, w1).
Proof. intros H. unfold bind. now rewrite H. Qed.

Lemma run_insert_some stmt (w : World) d :
  stmt (clock E (clock_reads w)) (db w) = Some d ->
  run_insert E stmt w = (Next tt, read_clock (set_db d w)).
Proof. intros H. unfold run_insert. now rewrite H. Qed.

Lemma run_insert_none stmt (w : World) :
  stmt (clock E (clock_reads w)) (db w) = None ->
  run_insert E stmt w = (Throw SqliteError, read_clock w).
Proof. intros H. unfold run_insert. now rewrite H. Qed.

(** The route run step by step. *)
Lemma post_message_run (req : MessageRequest) (w : World) :
  PostRun E req w (fst (post_message E req w)) (snd (post_message E req w)).
Proof.
  unfold post_message, try_catch, message_route.
  destruct (validate_pure (req_message req) w) as [Hw Hnothrow].
  destruct (validate (req_message req) w) as [[u|r|e] wv] eqn:Hv;
    simpl in Hw; subst wv.
  2: { rewrite (bind_respond _ Hv). now apply Run_rejected. }
  2: { exfalso. now apply (Hnothrow e). }
  rewrite (bind_next _ Hv).
  destruct (resolve_conversation E (req_conversationId req) w)
    as [[[convId isNew]|r|e] w1] eqn:Hr.
  2: { exfalso. exact (resolve_never_responds _ _ Hr). }
  2: { rewrite (bind_throw _ Hr). eapply Run_unresolved; eassumption. }
  rewrite (bind_next _ Hr). cbv beta iota.
  rewrite (bind_next _ (eq_refl : uuidv4 E w1 = (Next _, drew_uuid w1))).
  destruct (insert_message (uuid_src E (uuid_draws w1)) convId user u
              (clock E (clock_reads w1)) (db w1)) as [d2|] eqn:Hu.
  2: { rewrite (bind_throw _ (run_insert_none _ (drew_uuid w1) Hu)).
       eapply Run_user_unsaved; eassumption. }
  rewrite (bind_next _ (run_insert_some _ (drew_uuid w1) Hu)).
  set (w2 := read_clock (set_db d2 (drew_uuid w1))).
  rewrite (bind_next _ (eq_refl : query _ w2 = (Next _, w2))).
  cbv zeta. change (db w2) with d2.
  set (msgs := build_messages (rev (select_recent_desc convId 6 d2)) u).
  rewrite (bind_next _ (try_models_run modelsToTry msgs _ w2)).
  destruct (loop_outcome E (List.length (groq_log w2)) modelsToTry
              (mkLoop [] [] None)) as [v called] eqn:Hloop.
  cbn [fst snd].
  set (w3 := logged (calls_of called msgs) w2).
  unfold when.
  destruct (truthy (aiReply v)) eqn:Ht; cbn [negb].
  2: { rewrite (bind_throw _ (eq_refl : throw _ w3 = (Throw _, w3))).
       eapply Run_exhausted with (w2 := w2); try eassumption; reflexivity. }
  rewrite (bind_next _ (eq_refl : ret tt w3 = (Next tt, w3))).
  rewrite (bind_next _ (eq_refl : uuidv4 E w3 = (Next _, drew_uuid w3))).
  destruct (insert_message (uuid_src E (uuid_draws w3)) convId ai (aiReply v)
              (clock E (clock_reads w3)) (db w3)) as [d4|] eqn:Ha.
  2: { rewrite (bind_throw _ (run_insert_none _ (drew_uuid w3) Ha)).
       eapply Run_reply_unsaved with (w2 := w2); try eassumption; reflexivity. }
  rewrite (bind_next _ (run_insert_some _ (drew_uuid w3) Ha)).
  rewrite (bind_next _ (eq_refl : toISOString E (read_clock (set_db d4 (drew_uuid w3)))
                                    = (Next _, read_date _))).
  unfold ret. cbn [fst snd].
  change (date_reads (read_clock (set_db d4 (drew_uuid w3))))
    with (date_reads w3).
  eapply Run_replied with (w2 := w2); try eassumption; reflexivity.
Qed.

End Runs.

(* ===================================================================== *)
(** ** The steps of a run *)
(* ===================================================================== *)

Section Steps.

Variable E : Env.

Lemma has_conversation_app (c : jsstring) convs extra msgs :
  has_conversation c (mkDatabase (convs ++ extra) msgs)
  = has_conversation c (mkDatabase convs msgs)
    || has_conversation c (mkDatabase extra msgs).
Proof. unfold has_conversation. simpl. apply existsb_app. Qed.

Lemma insert_conversation_some (c : jsstring) (now : Z) (d d' : Database) :
  insert_conversation c now d = Some d' ->
  has_conversation c d = false
  /\ d' = mkDatabase (conversations d ++ [mkConversation c now]) (messages d).
Proof.
  unfold insert_conversation.
  destruct (has_conversation c d); [discriminate|].
  intros [= <-]. auto.
Qed.

Lemma insert_message_some mid cid s t now (d d' : Database) :
  insert_message mid cid s t now d = Some d' ->
  has_message mid d = false
  /\ has_conversation cid d = true
  /\ d' = mkDatabase (conversations d) (messages d ++ [mkMessage mid cid s t now]).
Proof.
  unfold insert_message.
  destruct (has_message mid d); [discriminate|].
  destruct (has_conversation cid d); simpl; [|discriminate].
  intros [= <-]. auto.
Qed.

Lemma insert_message_fresh mid cid s t now (d : Database) :
  has_message mid d = false ->
  has_conversation cid d = true ->
  insert_message mid cid s t now d
  = Some (mkDatabase (conversations d)
            (messages d ++ [mkMessage mid cid s t now])).
Proof.
  intros Hm Hc. unfold insert_message. now rewrite Hm, Hc.
Qed.

(** The two ways a conversation is resolved: the id sent is reused, or
    a conversation is created under the next uuid. *)
Lemma resolved (cid : option jsstring) (w w1 : World) convId isNew :
  resolve_conversation E cid w = (Next (convId, isNew), w1) ->
  (isNew = false /\ cid = Some convId /\ w1 = w
   /\ wants_new cid (db w) = false
   /\ has_conversation convId (db w) = true)
  \/
  (isNew = true /\ wants_new cid (db w) = true
   /\ convId = uuid_src E (uuid_draws w)
   /\ has_conversation convId (db w) = false
   /\ w1 = read_clock
             (set_db (mkDatabase
                        (conversations (db w)
                           ++ [mkConversation convId (clock E (clock_reads w))])
                        (messages (db w)))
                     (drew_uuid w))).
Proof.
  rewrite resolve_conversation_run.
  destruct (wants_new cid (db w)) eqn:Hnew.
  - rewrite create_conversation_run.
    destruct (insert_conversation _ _ _) as [d|] eqn:Hins; [|discriminate].
    intros [= <- <- <-]. right.
    apply insert_conversation_some in Hins as [Hfresh ->]. auto 6.
  - destruct cid as [c|]; [|discriminate Hnew].
    intros [= <- <- <-]. left.
    simpl in Hnew. apply orb_false_iff in Hnew as [_ Hc].
    apply negb_false_iff in Hc. auto 6.
Qed.

Lemma unresolved (cid : option jsstring) (w w1 : World) e :
  resolve_conversation E cid w = (Throw e, w1) ->
  e = SqliteError /\ w1 = read_clock (drew_uuid w)
  /\ has_conversation (uuid_src E (uuid_draws w)) (db w) = true.
Proof.
  rewrite resolve_conversation_run.
  destruct (wants_new cid (db w)), cid; try discriminate;
    rewrite create_conversation_run; unfold insert_conversation;
    destruct (has_conversation _ _); try discriminate;
    intros [= <- <-]; auto.
Qed.

Lemma resolved_store (cid : option jsstring) (w w1 : World) convId isNew :
  resolve_conversation E cid w = (Next (convId, isNew), w1) ->
  messages (db w1) = messages (db w)
  /\ groq_log w1 = groq_log w
  /\ has_conversation convId (db w1) = true
  /\ clock_reads w <= clock_reads w1
  /\ (forall c, has_conversation c (db w) = true ->
                has_conversation c (db w1) = true).
Proof.
  intros H. destruct (resolved _ _ H)
    as [(_ & _ & -> & _ & Hc) | (_ & _ & _ & _ & ->)].
  - auto 6.
  - simpl. repeat split; try lia.
    + rewrite has_conversation_app. unfold has_conversation at 2. simpl.
      rewrite eqb_refl. now rewrite orb_true_r.
    + intros c Hc. rewrite has_conversation_app.
      unfold has_conversation at 1. simpl.
      unfold has_conversation in Hc. now rewrite Hc.
Qed.

Lemma truthy_reply_of (c : ChatCompletion) : truthy (reply_of c) = true.
Proof.
  unfold reply_of. destruct (first_content c) as [s|]; [|reflexivity].
  unfold or_else. destruct (truthy s) eqn:Hs; [exact Hs | reflexivity].
Qed.

(** A completion with no content, or with the empty string for content,
    is replaced by the fixed apology. *)
Lemma reply_of_blank (c : ChatCompletion) :
  first_content c = None \/ first_content c = Some [] ->
  reply_of c = apology.
Proof. unfold reply_of. intros [-> | ->]; reflexivity. Qed.

(** The loop calls the models in order up to the first that completes:
    when the first [length pre] calls fail and the next completes with
    [c], the models called are [pre] and [model], and the loop leaves
    with [c]'s reply under [model]. *)
Lemma loop_first_success (pre : list jsstring) model post c :
  forall (n : nat) (v : LoopVars),
    (forall i, i < List.length pre -> exists e, groq E (n + i) = Failed e) ->
    groq E (n + List.length pre) = Completed c ->
    exists le,
      loop_outcome E n (pre ++ model :: post) v
      = (mkLoop (reply_of c) model le, pre ++ [model]).
Proof.
  induction pre as [|p pre IH]; intros n v Hfail Hok; simpl.
  - rewrite Nat.add_0_r in Hok. rewrite Hok. eauto.
  - destruct (Hfail 0) as [e He]; [simpl; lia|].
    rewrite Nat.add_0_r in He. rewrite He.
    destruct (IH (S n) (mkLoop (aiReply v) p (Some e))) as [le Hle].
    + intros i Hi. destruct (Hfail (S i)) as [e' He']; [simpl; lia|].
      exists e'. now rewrite Nat.add_succ_comm.
    + simpl in Hok. now rewrite Nat.add_succ_comm.
    + rewrite Hle. eauto.
Qed.

Lemma calls_of_messages (called : list jsstring) (msgs : list Turn) call :
  In call (calls_of called msgs) -> call_messages call = msgs.
Proof.
  unfold calls_of. rewrite in_map_iff. now intros (m & <- & _).
Qed.

End Steps.

(* ===================================================================== *)
(** ** Resolving the conversation *)
(* ===================================================================== *)

Section Resolution.

Local Open Scope string_scope.
Local Open Scope list_scope.

Variable E : Env.

Lemma filter_other_conversation (cid other : jsstring) (l added : list MessageRow) :
  other <> cid ->
  Forall (fun m => conversation_id m = other) added ->
  filter (of_conversation cid) (l ++ added) = filter (of_conversation cid) l.
Proof.
  intros Hneq Hall. rewrite filter_app.
  assert (Hnone : filter (of_conversation cid) added = []).
  { induction Hall as [|m added Hm _ IH]; simpl; [reflexivity|].
    unfold of_conversation at 1. rewrite Hm.
    apply eqb_neq in Hneq. now rewrite Hneq. }
  rewrite Hnone. apply app_nil_r.
Qed.

Lemma resolve_unknown (cid : jsstring) (w : World) :
  has_conversation cid (db w) = false ->
  has_conversation (uuid_src E (uuid_draws w)) (db w) = false ->
  resolve_conversation E (Some cid) w
  = (Next (uuid_src E (uuid_draws w), true),
     read_clock
       (set_db (mkDatabase
                  (conversations (db w)
                     ++ [mkConversation (uuid_src E (uuid_draws w))
                           (clock E (clock_reads w))])
                  (messages (db w)))
               (drew_uuid w))).
Proof.
  intros Hunknown Hfresh.
  rewrite resolve_conversation_run. unfold wants_new.
  rewrite Hunknown. simpl negb. rewrite orb_true_r.
  rewrite create_conversation_run. unfold insert_conversation.
  now rewrite Hfresh.
Qed.

(** C5. A valid message posted with a conversation id the store does
    not have: a conversation is created under the next uuid (taken, as a
    new identifier, to differ from the id sent and from the stored
    ones); every message the request stores belongs to it, none to the
    id sent, which stays unknown; and the response is either the success
    response, with [isNewConversation: true] and the new id, or the
    fallback of the route's catch. *)
Theorem unknown_conversation_replaced (req : MessageRequest) (w : World)
    (cid : jsstring) :
  validation_failure (req_message req) = None ->
  req_conversationId req = Some cid ->
  has_conversation cid (db w) = false ->
  uuid_src E (uuid_draws w) <> cid ->
  has_conversation (uuid_src E (uuid_draws w)) (db w) = false ->
  exists r w' added,
    post_message E req w = (r, w')
    /\ has_conversation (uuid_src E (uuid_draws w)) (db w') = true
    /\ has_conversation cid (db w') = false
    /\ messages (db w') = messages (db w) ++ added
    /\ Forall (fun m => conversation_id m = uuid_src E (uuid_draws w)) added
    /\ filter (of_conversation cid) (messages (db w'))
       = filter (of_conversation cid) (messages (db w))
    /\ ((status r = 200%Z
         /\ field "isNewConversation" (body r) = Some (JBool true)
         /\ field "conversationId" (body r)
            = Some (JStr (uuid_src E (uuid_draws w))))
        \/ exists e, r = chat_error e).
Proof.
  intros Hvalid Hcid Hunknown Hneq Hfresh.
  set (newId := uuid_src E (uuid_draws w)) in *.
  destruct (validate_passes _ w Hvalid) as (m & _ & _ & Hv).
  pose proof (resolve_unknown cid w Hunknown Hfresh) as Hres.
  fold newId in Hres.
  set (w1 := read_clock (set_db _ (drew_uuid w))) in Hres.
  assert (Hnew1 : has_conversation newId (db w1) = true).
  { subst w1. simpl. rewrite has_conversation_app.
    unfold has_conversation at 2. simpl. rewrite eqb_refl.
    now rewrite orb_true_r. }
  assert (Hcid1 : has_conversation cid (db w1) = false).
  { subst w1. simpl. rewrite has_conversation_app.
    unfold has_conversation in Hunknown. unfold has_conversation. simpl.
    rewrite Hunknown. apply eqb_neq in Hneq. now rewrite Hneq. }
  assert (Hmsgs1 : messages (db w1) = messages (db w)) by reflexivity.
  pose proof (post_message_run E req w) as Hrun.
  destruct (post_message E req w) as [r w'] eqn:Hpost. simpl in Hrun.
  exists r, w'.
  inversion Hrun as
    [ r0 Hv0
    | u e w1' Hv0 Hr0
    | u convId isNew w1' Hv0 Hr0 Hu
    | u convId isNew w1' d2 w2 v called w3 Hv0 Hr0 Hu Hw2 Hloop Hw3 Ht
    | u convId isNew w1' d2 w2 v called w3 Hv0 Hr0 Hu Hw2 Hloop Hw3 Ht Ha
    | u convId isNew w1' d2 w2 v called w3 d4 Hv0 Hr0 Hu Hw2 Hloop Hw3 Ht Ha ];
    subst; try (rewrite Hv in Hv0; discriminate Hv0);
    rewrite Hcid, Hres in Hr0; try discriminate Hr0;
    injection Hr0 as <- <- <-.
  - (* the user's message was not stored *)
    exists []. simpl db. rewrite app_nil_r. repeat split; eauto.
  - (* every model failed *)
    apply insert_message_some in Hu as (_ & _ & ->).
    eexists [_]. simpl db. simpl messages.
    repeat split; eauto.
    apply filter_other_conversation with (other := newId); auto.
  - (* the reply was not stored *)
    apply insert_message_some in Hu as (_ & _ & ->).
    eexists [_]. simpl db. simpl messages.
    repeat split; eauto.
    apply filter_other_conversation with (other := newId); auto.
  - (* replied *)
    apply insert_message_some in Hu as (_ & _ & ->).
    apply insert_message_some in Ha as (_ & _ & ->).
    eexists [_; _]. simpl db. simpl messages.
    split; [reflexivity|]. split; [exact Hnew1|]. split; [exact Hcid1|].
    split; [rewrite <- app_assoc; reflexivity|].
    split; [repeat constructor|].
    split; [|left; repeat split; reflexivity].
    rewrite <- app_assoc.
    apply filter_other_conversation with (other := newId);
      [exact Hneq | repeat constructor].
Qed.

End Resolution.

(* ===================================================================== *)
(** ** The fallback loop *)
(* ===================================================================== *)

Section Fallback.

Local Open Scope string_scope.
Local Open Scope list_scope.

Variable E : Env.

Lemma fresh_three (w : World) :
  uuids_fresh E w 3 ->
  let a := uuid_src E (uuid_draws w) in
  let b := uuid_src E (S (uuid_draws w)) in
  let c := uuid_src E (S (S (uuid_draws w))) in
  (a <> b /\ a <> c /\ b <> c)
  /\ (has_conversation a (db w) = false /\ has_message a (db w) = false)
  /\ (has_conversation b (db w) = false /\ has_message b (db w) = false)
  /\ (has_conversation c (db w) = false /\ has_message c (db w) = false).
Proof.
  unfold uuids_fresh. simpl map.
  rewrite Nat.add_0_r, Nat.add_1_r.
  replace (uuid_draws w + 2) with (S (S (uuid_draws w))) by lia.
  intros [Hnodup Hstored]. cbv zeta.
  inversion Hnodup as [|a l Ha Hl]; subst.
  inversion Hl as [|b l' Hb _]; subst.
  split.
  - repeat split; intros Heq.
    + apply Ha. left. now symmetry.
    + apply Ha. right. left. now symmetry.
    + apply Hb. left. now symmetry.
  - repeat split; apply Hstored; simpl; auto.
Qed.

Lemma has_message_app (mid : jsstring) convs msgs row :
  has_message mid (mkDatabase convs (msgs ++ [row]))
  = has_message mid (mkDatabase convs msgs) || Js.eqb (id row) mid.
Proof.
  unfold has_message. simpl. rewrite existsb_app. simpl.
  now rewrite orb_false_r.
Qed.

(** A valid request, new uuids, and a model that completes after the
    models before it failed: the route answers 200 with that model and
    its reply, stores the user's message and then the reply, and has
    called exactly the models up to the one that completed. *)
Lemma replies_with (req : MessageRequest) (w : World)
    (pre : list jsstring) (model : jsstring) (post : list jsstring)
    (c : ChatCompletion) :
  validation_failure (req_message req) = None ->
  uuids_fresh E w 3 ->
  modelsToTry = pre ++ model :: post ->
  (forall i, i < List.length pre ->
             exists e, groq E (List.length (groq_log w) + i) = Failed e) ->
  groq E (List.length (groq_log w) + List.length pre) = Completed c ->
  answered_by E req w model (reply_of c) (pre ++ [model]).
Proof.
  intros Hvalid Hfresh Hmodels Hfail Hok. unfold answered_by.
  destruct (validate_passes _ w Hvalid) as (m & Hm & _ & Hv).
  destruct (fresh_three Hfresh)
    as ((Hab & Hac & Hbc) & (Hac' & Ham) & (_ & Hbm) & (_ & Hcm)).
  pose proof (post_message_run E req w) as Hrun.
  destruct (post_message E req w) as [r w'] eqn:Hpost. simpl in Hrun.
  exists m.
  assert (Hstep : forall convId isNew w1 d2 v called,
    resolve_conversation E (req_conversationId req) w
      = (Next (convId, isNew), w1) ->
    insert_message (uuid_src E (uuid_draws w1)) convId user (trim m)
      (clock E (clock_reads w1)) (db w1) = Some d2 ->
    loop_outcome E (List.length (groq_log (read_clock (set_db d2 (drew_uuid w1)))))
      modelsToTry (mkLoop [] [] None) = (v, called) ->
    aiReply v = reply_of c /\ modelUsed v = model /\ called = pre ++ [model]
    /\ date_reads w1 = date_reads w
    /\ groq_log w1 = groq_log w
    /\ d2 = mkDatabase (conversations (db w1))
              (messages (db w)
                 ++ [mkMessage (uuid_src E (uuid_draws w1)) convId user (trim m)
                       (clock E (clock_reads w1))])
    /\ insert_message (uuid_src E (S (uuid_draws w1))) convId ai (reply_of c)
         (clock E (S (clock_reads w1))) d2
       = Some (mkDatabase (conversations (db w1))
                 ((messages (db w)
                     ++ [mkMessage (uuid_src E (uuid_draws w1)) convId user
                           (trim m) (clock E (clock_reads w1))])
                    ++ [mkMessage (uuid_src E (S (uuid_draws w1))) convId ai
                          (reply_of c) (clock E (S (clock_reads w1)))]))).
  { intros convId isNew w1 d2 v called Hr Hu Hloop.
    destruct (resolved_store _ _ _ Hr) as (Hmsgs & Hlog & Hconv & _ & _).
    apply insert_message_some in Hu as (_ & _ & ->).
    simpl groq_log in Hloop. rewrite Hlog, Hmodels in Hloop.
    destruct (@loop_first_success E pre model post c _ (mkLoop [] [] None) Hfail Hok)
      as [le Hle].
    rewrite Hle in Hloop. injection Hloop as <- <-.
    rewrite Hmsgs.
    assert (Hdate : date_reads w1 = date_reads w).
    { destruct (resolved _ _ _ Hr)
        as [(_ & _ & -> & _) | (_ & _ & _ & _ & ->)]; reflexivity. }
    repeat split; auto.
    apply insert_message_fresh; [|exact Hconv].
    rewrite has_message_app. simpl id.
    destruct (resolved _ _ _ Hr)
      as [(_ & _ & -> & _) | (_ & _ & _ & _ & ->)]; simpl.
    - change (has_message ?x (mkDatabase (conversations (db w)) (messages (db w))))
        with (has_message x (db w)).
      rewrite Hbm. simpl. now apply eqb_neq.
    - change (has_message ?x (mkDatabase _ (messages (db w))))
        with (has_message x (db w)).
      rewrite Hcm. simpl. now apply eqb_neq. }
  inversion Hrun as
    [ r0 Hv0
    | u e w1 Hv0 Hr0
    | u convId isNew w1 Hv0 Hr0 Hu
    | u convId isNew w1 d2 w2 v called w3 Hv0 Hr0 Hu Hw2 Hloop Hw3 Ht
    | u convId isNew w1 d2 w2 v called w3 Hv0 Hr0 Hu Hw2 Hloop Hw3 Ht Ha
    | u convId isNew w1 d2 w2 v called w3 d4 Hv0 Hr0 Hu Hw2 Hloop Hw3 Ht Ha ];
    subst; rewrite Hv in Hv0; try discriminate Hv0;
    injection Hv0 as <-.
  - (* creating the conversation cannot fail: its uuid is new *)
    exfalso. apply unresolved in Hr0 as (_ & _ & Hdup). congruence.
  - (* storing the user's message cannot fail *)
    exfalso.
    destruct (resolved_store _ _ _ Hr0) as (Hmsgs & _ & Hconv & _ & _).
    unfold insert_message in Hu. rewrite Hconv in Hu. simpl in Hu.
    assert (Hnew : has_message (uuid_src E (uuid_draws w1)) (db w1) = false).
    { unfold has_message. rewrite Hmsgs.
      destruct (resolved _ _ _ Hr0)
        as [(_ & _ & -> & _) | (_ & _ & _ & _ & ->)]; simpl.
      - exact Ham.
      - exact Hbm. }
    rewrite Hnew in Hu. discriminate Hu.
  - (* the loop does not leave without a reply *)
    exfalso. destruct (Hstep _ _ _ _ _ _ Hr0 Hu Hloop) as (Hreply & _).
    rewrite Hreply, truthy_reply_of in Ht. discriminate Ht.
  - (* storing the reply cannot fail *)
    exfalso.
    destruct (Hstep _ _ _ _ _ _ Hr0 Hu Hloop) as (Hreply & _ & _ & _ & _ & _ & Hai).
    simpl in Ha. rewrite Hreply, Hai in Ha. discriminate Ha.
  - destruct (Hstep _ _ _ _ _ _ Hr0 Hu Hloop)
      as (Hreply & Hmodel & Hcalled & Hdate & Hlog & Hd2 & Hai).
    simpl in Ha. rewrite Hreply, Hai in Ha. injection Ha as <-.
    exists convId, isNew.
    do 6 eexists.
    split; [exact Hm|].
    split.
    + unfold success_body. simpl date_reads.
      rewrite Hreply, Hmodel, Hdate. reflexivity.
    + simpl. rewrite <- app_assoc. split; [reflexivity|].
      rewrite Hlog, Hcalled. reflexivity.
Qed.

End Fallback.

Section FallbackOrder.

Local Open Scope string_scope.
Local Open Scope list_scope.

Variable E : Env.

(** C3. The candidates are called in the list's order. When the call to
    the first fails and the call to the second completes, a valid
    request (with new uuids) is answered 200 with [modelUsed] the second
    candidate, "llama-3.2-3b-preview"; the store gains the user's
    message and exactly one [ai] message, the reply of the second
    candidate; and the calls made are those two, first candidate then
    second, no third. *)
Theorem second_model_answers (req : MessageRequest) (w : World)
    (e : JsError) (c : ChatCompletion) :
  validation_failure (req_message req) = None ->
  uuids_fresh E w 3 ->
  groq E (List.length (groq_log w)) = Failed e ->
  groq E (S (List.length (groq_log w))) = Completed c ->
  nth_error modelsToTry 0 = Some (js "llama-3.1-8b-instant")
  /\ nth_error modelsToTry 1 = Some (js "llama-3.2-3b-preview")
  /\ answered_by E req w (js "llama-3.2-3b-preview") (reply_of c)
       [js "llama-3.1-8b-instant"; js "llama-3.2-3b-preview"].
Proof.
  intros Hvalid Hfresh Hfirst Hsecond.
  split; [reflexivity|]. split; [reflexivity|].
  apply (@replies_with E req w [js "llama-3.1-8b-instant"]
           (js "llama-3.2-3b-preview")
           [js "gemma2-9b-it"; js "llama-3.2-1b-preview"] c Hvalid Hfresh).
  - reflexivity.
  - intros i Hi. simpl in Hi. assert (i = 0) as -> by lia.
    rewrite Nat.add_0_r. eauto.
  - simpl List.length. now rewrite Nat.add_1_r.
Qed.

(** C10. When a candidate's call completes with no content, or with the
    empty string for content, after the candidates before it failed,
    the loop stops there: no later candidate is called, the reply is the
    fixed apology, it is stored as the conversation's [ai] message, and
    the response carries it with that candidate as [modelUsed]. *)
Theorem blank_completion_apologises (req : MessageRequest) (w : World)
    (pre : list jsstring) (model : jsstring) (post : list jsstring)
    (c : ChatCompletion) :
  validation_failure (req_message req) = None ->
  uuids_fresh E w 3 ->
  modelsToTry = pre ++ model :: post ->
  (forall i, i < List.length pre ->
             exists e, groq E (List.length (groq_log w) + i) = Failed e) ->
  groq E (List.length (groq_log w) + List.length pre) = Completed c ->
  first_content c = None \/ first_content c = Some [] ->
  apology = js "I apologize, but I couldn't generate a response."
  /\ answered_by E req w model apology (pre ++ [model]).
Proof.
  intros Hvalid Hfresh Hmodels Hfail Hok Hblank.
  split; [reflexivity|].
  rewrite <- (reply_of_blank c Hblank).
  now apply (@replies_with E req w pre model post c).
Qed.

End FallbackOrder.

Section FallbackExamples.

Local Open Scope string_scope.
Local Open Scope list_scope.

Lemma sample_uuids_fresh (E : Env) :
  uuid_src E = (fun n => [N.of_nat n]) ->
  uuids_fresh E Sample.fresh_world 3.
Proof.
  intros HE. unfold uuids_fresh. rewrite HE. simpl. split.
  - repeat constructor; simpl; intuition discriminate.
  - intros u _. split; reflexivity.
Defined.

Lemma second_model_answers_witness :
  answered_by Sample.first_down Sample.hello Sample.fresh_world
    (js "llama-3.2-3b-preview") (reply_of Sample.hi)
    [js "llama-3.1-8b-instant"; js "llama-3.2-3b-preview"].
Proof.
  apply (@second_model_answers Sample.first_down Sample.hello
           Sample.fresh_world Sample.unavailable Sample.hi).
  - reflexivity.
  - apply sample_uuids_fresh. reflexivity.
  - reflexivity.
  - reflexivity.
Defined.

Lemma blank_completion_apologises_witness :
  answered_by Sample.speechless Sample.hello Sample.fresh_world
    (js "llama-3.1-8b-instant") apology ([] ++ [js "llama-3.1-8b-instant"]).
Proof.
  apply (@blank_completion_apologises Sample.speechless Sample.hello
           Sample.fresh_world [] (js "llama-3.1-8b-instant")
           [js "llama-3.2-3b-preview"; js "gemma2-9b-it";
            js "llama-3.2-1b-preview"] Sample.silent).
  - reflexivity.
  - apply sample_uuids_fresh. reflexivity.
  - reflexivity.
  - intros i Hi. simpl in Hi. lia.
  - reflexivity.
  - left. reflexivity.
Defined.

(** The same run, computed: the second candidate is named, two calls
    are logged, and the store holds one [user] and one [ai] message. *)
Example first_down_run :
  let (r, w') := post_message Sample.first_down Sample.hello Sample.fresh_world in
  field "modelUsed" (body r) = Some (JStr (js "llama-3.2-3b-preview"))
  /\ map call_model (groq_log w')
     = [js "llama-3.1-8b-instant"; js "llama-3.2-3b-preview"]
  /\ map sender (messages (db w')) = [user; ai].
Proof. vm_compute. repeat split. Qed.

End FallbackExamples.

(* ===================================================================== *)
(** ** The history queries *)
(* ===================================================================== *)

Section History.

Local Open Scope string_scope.
Local Open Scope list_scope.

Lemma Forall_insert_by_created_at (P : MessageRow -> Prop) m l :
  P m -> Forall P l -> Forall P (insert_by_created_at m l).
Proof.
  intros Hm Hl. induction Hl as [|x l Hx Hl IH]; simpl.
  - constructor; [exact Hm | constructor].
  - destruct (created_at m <=? created_at x)%Z;
      constructor; auto.
Qed.

Lemma insert_chronological m l :
  chronological l -> chronological (insert_by_created_at m l).
Proof.
  unfold chronological. intros Hl.
  induction Hl as [|x l Hl IH Hx]; simpl.
  - constructor; [constructor | constructor].
  - destruct (Z.leb_spec (created_at m) (created_at x)) as [Hle|Hgt].
    + constructor; [constructor; assumption|].
      constructor; [exact Hle|].
      eapply Forall_impl; [|exact Hx]. simpl. intros y Hy. lia.
    + constructor; [exact IH|].
      apply Forall_insert_by_created_at; [lia | exact Hx].
Qed.

Lemma order_by_chronological l : chronological (order_by_created_at l).
Proof.
  induction l as [|m l IH]; simpl.
  - constructor.
  - now apply insert_chronological.
Qed.

(** Rows already in order are left as they are: ties keep rowid order. *)
Lemma order_by_chronological_id l :
  chronological l -> order_by_created_at l = l.
Proof.
  unfold chronological. intros Hl.
  induction Hl as [|m l Hl IH Hm]; simpl; [reflexivity|].
  rewrite IH. destruct Hm as [|x l' Hx _]; simpl; [reflexivity|].
  apply Z.leb_le in Hx. now rewrite Hx.
Qed.

Lemma skipn_chronological n l :
  chronological l -> chronological (skipn n l).
Proof.
  unfold chronological. revert l.
  induction n as [|n IH]; intros l Hl; [exact Hl|].
  destruct l as [|x l]; [constructor|].
  simpl. apply IH. now apply StronglySorted_inv in Hl.
Qed.

(** The rows the chat route reads for its context, once reversed, are
    the last [n] rows of the conversation's chronological history. *)
Lemma recent_history (cid : jsstring) (n : nat) (d : Database) :
  rev (select_recent_desc cid n d) = last_n n (select_messages_asc cid d)
  /\ List.length (last_n n (select_messages_asc cid d)) <= n
  /\ chronological (last_n n (select_messages_asc cid d)).
Proof.
  unfold select_recent_desc, select_messages_asc, last_n.
  rewrite firstn_rev, rev_involutive.
  split; [reflexivity|]. split.
  - rewrite length_skipn. lia.
  - apply skipn_chronological, order_by_chronological.
Qed.

Variable E : Env.

Lemma validate_next (message : option Json) (w w1 : World) u :
  validate message w = (Next u, w1) ->
  exists m, message = Some (JStr m) /\ u = trim m.
Proof.
  unfold validate.
  destruct message as [[| | | m | |]|]; try discriminate.
  destruct (truthy m); simpl; [|discriminate].
  destruct (List.length (trim m) =? 0)%nat; [discriminate|].
  destruct (1000 <? List.length (trim m))%nat; [discriminate|].
  intros [= <- <-]. eauto.
Qed.

(** C4. The calls a request makes to the completion provider all carry
    one turn sequence: the fixed system turn, then the turns of at most
    6 stored messages, then the current user turn. Those messages are
    the last 6 (or fewer, if the conversation is shorter) of the
    conversation's history as it stands in the store [d] that holds the
    user's message just stored, oldest first. *)
Theorem context_is_recent_history (req : MessageRequest) (w : World) :
  exists calls,
    groq_log (snd (post_message E req w)) = groq_log w ++ calls
    /\ (calls = []
        \/ exists m convId uid tu d history,
             req_message req = Some (JStr m)
             /\ messages d
                = messages (db w) ++ [mkMessage uid convId user (trim m) tu]
             /\ history = last_n 6 (select_messages_asc convId d)
             /\ List.length history <= 6
             /\ chronological history
             /\ Forall (fun call =>
                          call_messages call
                          = [mkTurn system STORE_INFO]
                              ++ map turn_of_row history
                              ++ [mkTurn user_role (trim m)]) calls).
Proof.
  pose proof (post_message_run E req w) as Hrun.
  destruct (post_message E req w) as [r w'] eqn:Hpost. simpl in Hrun. simpl snd.
  assert (Hcontext : forall u convId isNew w1 d2 called,
    validate (req_message req) w = (Next u, w) ->
    resolve_conversation E (req_conversationId req) w
      = (Next (convId, isNew), w1) ->
    insert_message (uuid_src E (uuid_draws w1)) convId user u
      (clock E (clock_reads w1)) (db w1) = Some d2 ->
    exists calls,
      groq_log w1
        ++ calls_of called
             (build_messages (rev (select_recent_desc convId 6 d2)) u)
      = groq_log w ++ calls
      /\ (calls = []
          \/ exists m convId0 uid tu d history,
             req_message req = Some (JStr m)
             /\ messages d
                = messages (db w) ++ [mkMessage uid convId0 user (trim m) tu]
             /\ history = last_n 6 (select_messages_asc convId0 d)
             /\ List.length history <= 6
             /\ chronological history
             /\ Forall (fun call =>
                          call_messages call
                          = [mkTurn system STORE_INFO]
                              ++ map turn_of_row history
                              ++ [mkTurn user_role (trim m)]) calls)).
  { intros u convId isNew w1 d2 called Hv Hr Hu.
    destruct (validate_next _ _ Hv) as (m & Hm & ->).
    destruct (resolved_store _ _ _ Hr) as (Hmsgs & Hlog & _).
    apply insert_message_some in Hu as (_ & _ & Hd2).
    destruct (recent_history convId 6 d2) as (Hrev & Hlen & Hchron).
    rewrite Hlog. eexists. split; [reflexivity|]. right.
    exists m, convId, (uuid_src E (uuid_draws w1)), (clock E (clock_reads w1)),
           d2, (last_n 6 (select_messages_asc convId d2)).
    split; [exact Hm|]. split; [rewrite Hd2, Hmsgs; reflexivity|].
    split; [reflexivity|]. split; [exact Hlen|]. split; [exact Hchron|].
    apply Forall_forall. intros call Hcall.
    apply calls_of_messages in Hcall. rewrite Hcall, Hrev. reflexivity. }
  inversion Hrun as
    [ r0 Hv0
    | u e w1 Hv0 Hr0
    | u convId isNew w1 Hv0 Hr0 Hu
    | u convId isNew w1 d2 w2 v called w3 Hv0 Hr0 Hu Hw2 Hloop Hw3 Ht
    | u convId isNew w1 d2 w2 v called w3 Hv0 Hr0 Hu Hw2 Hloop Hw3 Ht Ha
    | u convId isNew w1 d2 w2 v called w3 d4 Hv0 Hr0 Hu Hw2 Hloop Hw3 Ht Ha ];
    subst.
  - exists []. rewrite app_nil_r. auto.
  - apply unresolved in Hr0 as (_ & -> & _).
    exists []. rewrite app_nil_r. auto.
  - destruct (resolved_store _ _ _ Hr0) as (_ & Hlog & _).
    exists []. rewrite app_nil_r. auto.
  - exact (Hcontext _ _ _ _ _ called Hv0 Hr0 Hu).
  - exact (Hcontext _ _ _ _ _ called Hv0 Hr0 Hu).
  - exact (Hcontext _ _ _ _ _ called Hv0 Hr0 Hu).
Qed.

End History.

(* ===================================================================== *)
(** ** A conversation of N exchanges *)
(* ===================================================================== *)

Section Exchanges.

Local Open Scope string_scope.
Local Open Scope list_scope.

Variable E : Env.

Lemma chat_error_status (e : JsError) : status (chat_error e) <> 200%Z.
Proof.
  unfold chat_error. destruct (err_status e) as [st|]; [|discriminate].
  destruct (st =? 401)%Z; [discriminate|].
  destruct (st =? 429)%Z; [discriminate|].
  destruct (st =? 400)%Z; discriminate.
Qed.

Lemma validate_responds_400 (message : option Json) (w w1 : World) r :
  validate message w = (Respond r, w1) -> status r = 400%Z.
Proof.
  unfold validate.
  destruct message as [[| | | m | |]|]; try (intros [= <- _]; reflexivity).
  destruct (truthy m); simpl; [|intros [= <- _]; reflexivity].
  destruct (List.length (trim m) =? 0)%nat; [intros [= <- _]; reflexivity|].
  destruct (1000 <? List.length (trim m))%nat; [|discriminate].
  intros [= <- _]. reflexivity.
Qed.

Lemma alternating_snoc (n : nat) :
  alternating n ++ [user; ai] = alternating (S n).
Proof.
  induction n as [|n IH]; [reflexivity|].
  simpl. simpl in IH. now rewrite IH.
Qed.

Lemma alternating_length (n : nat) : List.length (alternating n) = 2 * n.
Proof. induction n as [|n IH]; simpl; [reflexivity|]. rewrite IH. lia. Qed.

Lemma chronological_snoc (l : list MessageRow) (m : MessageRow) :
  chronological l ->
  Forall (fun x => (created_at x <= created_at m)%Z) l ->
  chronological (l ++ [m]).
Proof.
  unfold chronological. intros Hl Hm.
  induction Hl as [|x l Hl IH Hx]; simpl.
  - constructor; constructor.
  - apply Forall_cons_iff in Hm as [Hxm Hm].
    constructor; [now apply IH|].
    apply Forall_app. split; [exact Hx|]. constructor; [exact Hxm|constructor].
Qed.

(** One successful exchange in conversation [c] adds to its rows the
    user's message and then the reply, stamped by two successive
    readings of the clock. *)
Lemma replied_step (c : jsstring) (req : MessageRequest) (w : World) :
  replied_in c (fst (post_message E req w)) ->
  exists urow arow k,
    filter (of_conversation c) (messages (db (snd (post_message E req w))))
    = filter (of_conversation c) (messages (db w)) ++ [urow; arow]
    /\ sender urow = user /\ sender arow = ai
    /\ created_at urow = clock E k /\ created_at arow = clock E (S k)
    /\ clock_reads w <= k
    /\ clock_reads (snd (post_message E req w)) = S (S k)
    /\ has_conversation c (db (snd (post_message E req w))) = true.
Proof.
  pose proof (post_message_run E req w) as Hrun.
  destruct (post_message E req w) as [r w'] eqn:Hpost. simpl in *.
  intros [Hstatus Hconv].
  inversion Hrun as
    [ r0 Hv0
    | u e w1 Hv0 Hr0
    | u convId isNew w1 Hv0 Hr0 Hu
    | u convId isNew w1 d2 w2 v called w3 Hv0 Hr0 Hu Hw2 Hloop Hw3 Ht
    | u convId isNew w1 d2 w2 v called w3 Hv0 Hr0 Hu Hw2 Hloop Hw3 Ht Ha
    | u convId isNew w1 d2 w2 v called w3 d4 Hv0 Hr0 Hu Hw2 Hloop Hw3 Ht Ha ];
    subst; try (exfalso; now apply (chat_error_status _ Hstatus)).
  - apply validate_responds_400 in Hv0. rewrite Hv0 in Hstatus. discriminate.
  - simpl in Hconv. injection Hconv as ->.
    destruct (resolved_store _ _ _ Hr0) as (Hmsgs & _ & Hc & Hreads & _).
    apply insert_message_some in Hu as (_ & _ & ->).
    apply insert_message_some in Ha as (_ & _ & ->).
    simpl. do 2 eexists. exists (clock_reads w1).
    split.
    + rewrite !filter_app. simpl. unfold of_conversation at 2 3. simpl.
      rewrite eqb_refl, Hmsgs, <- app_assoc. reflexivity.
    + repeat split; auto.
Qed.

Hypothesis clock_monotone :
  forall i j, i <= j -> (clock E i <= clock E j)%Z.

Lemma settled_step (c : jsstring) (n : nat) (req : MessageRequest) (w : World) :
  settled E c n w ->
  replied_in c (fst (post_message E req w)) ->
  settled E c (S n) (snd (post_message E req w))
  /\ has_conversation c (db (snd (post_message E req w))) = true.
Proof.
  intros (Halt & Hchron & Hpast) Hreplied.
  destruct (@replied_step c req w Hreplied)
    as (urow & arow & k & Hrows & Hu & Ha & Htu & Hta & Hk & Hreads & Hconv).
  split; [|exact Hconv].
  unfold settled. rewrite Hrows, Hreads.
  pose proof (@clock_monotone _ _ Hk) as Hwk.
  pose proof (@clock_monotone _ _ (Nat.le_succ_diag_r k)) as Hk1.
  pose proof (@clock_monotone _ _ (Nat.le_succ_diag_r (S k))) as Hk2.
  split; [|split].
  - rewrite map_app. simpl. rewrite Halt, Hu, Ha. apply alternating_snoc.
  - change (filter (of_conversation c) (messages (db w)) ++ [urow; arow])
      with (filter (of_conversation c) (messages (db w)) ++ [urow] ++ [arow]).
    rewrite app_assoc. apply chronological_snoc.
    + apply chronological_snoc; [exact Hchron|].
      eapply Forall_impl; [|exact Hpast]. simpl. intros m Hm. lia.
    + apply Forall_app. split.
      * eapply Forall_impl; [|exact Hpast]. simpl. intros m Hm. lia.
      * constructor; [lia | constructor].
  - apply Forall_app. split.
    + eapply Forall_impl; [|exact Hpast]. simpl. intros m Hm. lia.
    + constructor; [lia|]. constructor; [lia | constructor].
Qed.

Lemma settled_run (c : jsstring) (reqs : list MessageRequest) :
  forall (n : nat) (w : World),
    settled E c n w ->
    Forall (replied_in c) (fst (run_posts E reqs w)) ->
    settled E c (n + List.length reqs) (snd (run_posts E reqs w))
    /\ (reqs <> [] \/ has_conversation c (db w) = true ->
        has_conversation c (db (snd (run_posts E reqs w))) = true).
Proof.
  induction reqs as [|req rest IH]; intros n w Hsettled Hall.
  - simpl. rewrite Nat.add_0_r. split; [exact Hsettled|].
    intros [Hne | Hc]; [now elim Hne | exact Hc].
  - simpl in Hall |- *.
    pose proof (@settled_step c n req w Hsettled) as Hstep.
    destruct (post_message E req w) as [r w1].
    specialize (IH (S n) w1).
    destruct (run_posts E rest w1) as [rs w'].
    simpl in *. apply Forall_cons_iff in Hall as [Hr Hrs].
    destruct (Hstep Hr) as [Hsettled1 Hconv1].
    destruct (IH Hsettled1 Hrs) as [Hsettled' Hconv'].
    rewrite Nat.add_succ_r. split; [exact Hsettled'|].
    intros _. apply Hconv'. now right.
Qed.

(** C8, as the server has it. After N successive successful chat
    requests in one conversation that had no message before (the clock
    never running backwards), GET /api/conversation/:id answers 200 with
    [messageCount] 2N and exactly 2N messages, senders alternating user,
    ai, user, ai, ..., in order of [created_at], oldest first. Two
    neighbours may carry the same [created_at]: the order among them is
    the order of insertion. *)
Theorem history_after_posts (c : jsstring) (reqs : list MessageRequest)
    (w : World) :
  filter (of_conversation c) (messages (db w)) = [] ->
  Forall (replied_in c) (fst (run_posts E reqs w)) ->
  reqs <> [] \/ has_conversation c (db w) = true ->
  exists conversation rows,
    get_conversation c (snd (run_posts E reqs w))
    = (res_json 200
         (JObj [("success", JBool true);
                ("conversationId", JStr c);
                ("createdAt", JNum (conv_created_at conversation));
                ("messageCount", JNum (Z.of_nat (2 * List.length reqs)));
                ("messages", JArr (map message_json rows))]),
       snd (run_posts E reqs w))
    /\ List.length rows = 2 * List.length reqs
    /\ map sender rows = alternating (List.length reqs)
    /\ chronological rows.
Proof.
  intros Hnone Hall Hexists.
  assert (Hstart : settled E c 0 w).
  { unfold settled. rewrite Hnone. repeat split; constructor. }
  destruct (@settled_run c reqs 0 w Hstart Hall) as [(Halt & Hchron & _) Hconv].
  specialize (Hconv Hexists). simpl in Halt.
  set (w' := snd (run_posts E reqs w)) in *.
  destruct (select_conversation_has _ _ Hconv) as (row & Hrow & _).
  exists row, (filter (of_conversation c) (messages (db w'))).
  assert (Hlen : List.length (filter (of_conversation c) (messages (db w')))
                 = 2 * List.length reqs).
  { rewrite <- (length_map sender), Halt. apply alternating_length. }
  split; [|auto].
  unfold get_conversation, try_catch, history_route.
  rewrite (bind_next _ (eq_refl : query (select_conversation c) w' = (Next _, w'))).
  rewrite Hrow.
  rewrite (bind_next _ (eq_refl : query (select_messages_asc c) w' = (Next _, w'))).
  unfold ret, select_messages_asc, index_scan.
  rewrite (@order_by_chronological_id _ Hchron), Hlen. reflexivity.
Qed.

End Exchanges.

Section ExchangeExamples.

Local Open Scope string_scope.
Local Open Scope list_scope.

Lemma ticking_monotone :
  forall i j, i <= j -> (clock Sample.ticking i <= clock Sample.ticking j)%Z.
Proof. intros i j Hij. simpl. lia. Defined.

Lemma history_after_posts_witness :
  exists conversation rows,
    get_conversation [0%N]
      (snd (run_posts Sample.ticking [Sample.hello; Sample.thanks]
              Sample.fresh_world))
    = (res_json 200
         (JObj [("success", JBool true);
                ("conversationId", JStr [0%N]);
                ("createdAt", JNum (conv_created_at conversation));
                ("messageCount",
                 JNum (Z.of_nat (2 * List.length [Sample.hello; Sample.thanks])));
                ("messages", JArr (map message_json rows))]),
       snd (run_posts Sample.ticking [Sample.hello; Sample.thanks]
              Sample.fresh_world))
    /\ List.length rows = 2 * List.length [Sample.hello; Sample.thanks]
    /\ map sender rows = alternating (List.length [Sample.hello; Sample.thanks])
    /\ chronological rows.
Proof.
  apply (@history_after_posts Sample.ticking ticking_monotone [0%N]
           [Sample.hello; Sample.thanks] Sample.fresh_world).
  - reflexivity.
  - vm_compute. repeat constructor.
  - left. discriminate.
Defined.

(** When both inserts of an exchange fall within one second, the two
    messages of the history carry the same [created_at]: the order of
    the history is not strict. *)
Lemma same_second_history_not_strict :
  let run := run_posts Sample.same_second [Sample.hello] Sample.fresh_world in
  Forall (replied_in [0%N]) (fst run)
  /\ exists rows,
       field "messages" (body (fst (get_conversation [0%N] (snd run))))
       = Some (JArr (map message_json rows))
       /\ List.length rows = 2
       /\ map created_at rows = [1700000000%Z; 1700000000%Z]
       /\ ~ strictly_chronological rows.
Proof.
  cbv zeta. split.
  - vm_compute. repeat constructor.
  - exists (select_messages_asc [0%N]
              (db (snd (run_posts Sample.same_second [Sample.hello]
                          Sample.fresh_world)))).
    split; [vm_compute; reflexivity|].
    split; [vm_compute; reflexivity|].
    split; [vm_compute; reflexivity|].
    unfold strictly_chronological. vm_compute select_messages_asc.
    intros Hstrict. apply StronglySorted_inv in Hstrict as [_ Hfirst].
    apply Forall_inv in Hfirst. simpl in Hfirst. lia.
Qed.

Lemma unknown_conversation_replaced_witness :
  exists r w' added,
    post_message Sample.ticking Sample.stranger Sample.one_chat = (r, w')
    /\ has_conversation (uuid_src Sample.ticking (uuid_draws Sample.one_chat))
         (db w') = true
    /\ has_conversation (js "no-such-id") (db w') = false
    /\ messages (db w') = messages (db Sample.one_chat) ++ added
    /\ Forall (fun m => conversation_id m
                        = uuid_src Sample.ticking (uuid_draws Sample.one_chat))
         added
    /\ filter (of_conversation (js "no-such-id")) (messages (db w'))
       = filter (of_conversation (js "no-such-id"))
           (messages (db Sample.one_chat))
    /\ ((status r = 200%Z
         /\ field "isNewConversation" (body r) = Some (JBool true)
         /\ field "conversationId" (body r)
            = Some (JStr (uuid_src Sample.ticking (uuid_draws Sample.one_chat))))
        \/ exists e, r = chat_error e).
Proof.
  apply (@unknown_conversation_replaced Sample.ticking Sample.stranger
           Sample.one_chat (js "no-such-id")).
  - reflexivity.
  - reflexivity.
  - reflexivity.
  - intros Heq. vm_compute in Heq. discriminate Heq.
  - reflexivity.
Defined.

(** The run of that request, computed: it succeeds, under the new id
    [[3]], with [isNewConversation: true]. *)
Example stranger_run :
  let r := fst (post_message Sample.ticking Sample.stranger Sample.one_chat) in
  status r = 200%Z
  /\ field "isNewConversation" (body r) = Some (JBool true)
  /\ field "conversationId" (body r) = Some (JStr [3%N]).
Proof. vm_compute. repeat split. Qed.

(** The fifth exchange of a conversation: of the nine messages stored
    when the provider is called, the last six go into the context,
    oldest first, between the system turn and the current user turn. *)
Example fifth_exchange_context :
  let w4 := snd (run_posts Sample.ticking
                   [Sample.hello; Sample.thanks; Sample.thanks; Sample.thanks]
                   Sample.fresh_world) in
  let w5 := snd (post_message Sample.ticking Sample.thanks w4) in
  List.length (messages (db w4)) = 8
  /\ map (fun call => map role (call_messages call))
         (skipn (List.length (groq_log w4)) (groq_log w5))
     = [[system; assistant; user_role; assistant; user_role; assistant;
         user_role; user_role]].
Proof. vm_compute. split; reflexivity. Qed.

End ExchangeExamples.

(* ===================================================================== *)
(** ** History and export *)
(* ===================================================================== *)

Section Exporting.

Local Open Scope string_scope.
Local Open Scope list_scope.

(** C9, as the server has it. For every stored conversation id the
    export answers 200 with a Content-Disposition attachment header
    naming the conversation, and its body has the fields
    [conversationId], [createdAt], [messageCount] and [messages] with
    the values GET /api/conversation/:id sends: the same message
    sequence. The history body has one field more, [success: true], in
    front of those four, and is printed compactly where the export is
    indented by two spaces. Neither request changes the world. *)
Theorem export_carries_history (cid : jsstring) (w : World) :
  has_conversation cid (db w) = true ->
  exists conversation,
    let payload :=
      [("conversationId", JStr cid);
       ("createdAt", JNum (conv_created_at conversation));
       ("messageCount",
        JNum (Z.of_nat (List.length (select_messages_asc cid (db w)))));
       ("messages", JArr (map message_json (select_messages_asc cid (db w))))] in
    select_conversation cid (db w) = Some conversation
    /\ export_conversation cid w
       = (mkResponse 200
            [("Content-Disposition", attachment cid);
             ("Content-Type", js "application/json")]
            (JObj payload) 2, w)
    /\ get_conversation cid w
       = (mkResponse 200 [] (JObj (("success", JBool true) :: payload)) 0, w).
Proof.
  intros Hstored.
  destruct (select_conversation_has _ _ Hstored) as (row & Hrow & _).
  exists row. cbv zeta. split; [exact Hrow|]. split.
  - unfold export_conversation, try_catch, export_route, bind, query.
    rewrite Hrow. reflexivity.
  - unfold get_conversation, try_catch, history_route, bind, query.
    rewrite Hrow. reflexivity.
Qed.

Lemma export_carries_history_witness :
  exists conversation,
    select_conversation [0%N] (db Sample.one_chat) = Some conversation
    /\ export_conversation [0%N] Sample.one_chat
       = (mkResponse 200
            [("Content-Disposition", attachment [0%N]);
             ("Content-Type", js "application/json")]
            (JObj [("conversationId", JStr [0%N]);
                   ("createdAt", JNum (conv_created_at conversation));
                   ("messageCount",
                    JNum (Z.of_nat (List.length
                            (select_messages_asc [0%N] (db Sample.one_chat)))));
                   ("messages",
                    JArr (map message_json
                            (select_messages_asc [0%N] (db Sample.one_chat))))])
            2, Sample.one_chat)
    /\ get_conversation [0%N] Sample.one_chat
       = (mkResponse 200 []
            (JObj [("success", JBool true);
                   ("conversationId", JStr [0%N]);
                   ("createdAt", JNum (conv_created_at conversation));
                   ("messageCount",
                    JNum (Z.of_nat (List.length
                            (select_messages_asc [0%N] (db Sample.one_chat)))));
                   ("messages",
                    JArr (map message_json
                            (select_messages_asc [0%N] (db Sample.one_chat))))])
            0, Sample.one_chat).
Proof.
  apply (export_carries_history [0%N] Sample.one_chat).
  reflexivity.
Defined.

(** The two bodies differ: the export has no [success] field. *)
Lemma export_body_differs :
  let exported := fst (export_conversation [0%N] Sample.one_chat) in
  let history := fst (get_conversation [0%N] Sample.one_chat) in
  status exported = 200%Z /\ status history = 200%Z
  /\ field "success" (body history) = Some (JBool true)
  /\ field "success" (body exported) = None
  /\ body exported <> body history
  /\ indent exported <> indent history.
Proof.
  vm_compute. repeat split; discriminate.
Qed.

End Exporting.

(* ===================================================================== *)
(** ** Trimming, and what the chat page posts *)
(* ===================================================================== *)

Section Trimming.

Local Open Scope list_scope.

Lemma trimStart_suffix (s : jsstring) :
  exists x, s = x ++ trimStart s.
Proof.
  induction s as [|c s [x IH]]; simpl.
  - now exists [].
  - destruct (is_white_space c).
    + exists (c :: x). simpl. now rewrite <- IH.
    + now exists [].
Qed.

Lemma trimStart_starts_clean (s : jsstring) : starts_clean (trimStart s).
Proof.
  induction s as [|c s IH]; simpl; [exact I|].
  destruct (is_white_space c) eqn:Hc; [exact IH | exact Hc].
Qed.

Lemma trimStart_clean (s : jsstring) : starts_clean s -> trimStart s = s.
Proof.
  destruct s as [|c s]; simpl; [reflexivity|]. now intros ->.
Qed.

Lemma length_trimStart (s : jsstring) :
  List.length (trimStart s) <= List.length s.
Proof.
  destruct (trimStart_suffix s) as [x Hx].
  rewrite Hx at 2. rewrite length_app. lia.
Qed.

Lemma length_trim (s : jsstring) : List.length (trim s) <= List.length s.
Proof.
  unfold trim, trimEnd. rewrite length_rev.
  etransitivity; [apply length_trimStart|].
  rewrite length_rev. apply length_trimStart.
Qed.

Lemma trim_starts_clean (s : jsstring) : starts_clean (trim s).
Proof.
  unfold trim, trimEnd.
  destruct (trimStart_suffix (rev (trimStart s))) as [x Hx].
  pose proof (trimStart_starts_clean s) as Hclean.
  apply (f_equal (@rev code_unit)) in Hx.
  rewrite rev_involutive, rev_app_distr in Hx.
  destruct (rev (trimStart (rev (trimStart s)))) as [|c t]; [exact I|].
  rewrite Hx in Hclean. exact Hclean.
Qed.

(** Trimming a trimmed text changes nothing. *)
Lemma trim_idempotent (s : jsstring) : trim (trim s) = trim s.
Proof.
  unfold trim at 1. rewrite (trimStart_clean _ (trim_starts_clean s)).
  unfold trim, trimEnd. rewrite rev_involutive.
  now rewrite (trimStart_clean _ (trimStart_starts_clean _)).
Qed.

End Trimming.

Section ChatPage.

Local Open Scope string_scope.
Local Open Scope list_scope.

(** X1. What the chat page posts is never turned down as missing or
    empty: the message is the trimmed, non-empty input, which the
    server's own trim leaves as it is; it is turned down as too long
    exactly when the trimmed input has more than 1000 code units, so
    never when the box holds at most 1000. The conversation id is left
    out rather than sent empty. *)
Theorem page_request_validates (input : jsstring) (loading : bool)
    (conversationId : jsstring) (req : MessageRequest) (w : World) :
  sendMessage_request input loading conversationId = Some req ->
  req_message req = Some (JStr (trim input))
  /\ req_conversationId req <> Some []
  /\ validation_failure (req_message req)
     = (if (1000 <? List.length (trim input))%nat then Some tooLong else None)
  /\ (List.length input <= 1000 ->
      validate (req_message req) w = (Next (trim input), w)).
Proof.
  unfold sendMessage_request.
  destruct (truthy (trim input)) eqn:Htrim; simpl; [|discriminate].
  destruct loading; [discriminate|].
  intros [= <-]. cbn [req_message req_conversationId].
  assert (Hlen : (List.length (trim input) =? 0)%nat = false).
  { destruct (trim input); [discriminate Htrim | reflexivity]. }
  split; [reflexivity|]. split.
  { destruct conversationId; simpl; discriminate. }
  unfold validation_failure, validate.
  rewrite trim_idempotent, Htrim, Hlen. cbn [negb].
  split; [reflexivity|].
  intros Hbox.
  pose proof (length_trim input) as Hle.
  destruct (Nat.ltb_spec 1000 (List.length (trim input))); [lia | reflexivity].
Qed.

Lemma page_request_validates_witness :
  req_message Sample.hello = Some (JStr (trim (js "  Hello! ")))
  /\ req_conversationId Sample.hello <> Some []
  /\ validation_failure (req_message Sample.hello)
     = (if (1000 <? List.length (trim (js "  Hello! ")))%nat
        then Some tooLong else None)
  /\ (List.length (js "  Hello! ") <= 1000 ->
      validate (req_message Sample.hello) Sample.fresh_world
      = (Next (trim (js "  Hello! ")), Sample.fresh_world)).
Proof.
  apply (@page_request_validates (js "  Hello! ") false [] Sample.hello
           Sample.fresh_world).
  reflexivity.
Defined.

End ChatPage.

(* ===================================================================== *)
(** ** What a chat request does to the store *)
(* ===================================================================== *)

Section StoreEffects.

Local Open Scope string_scope.
Local Open Scope list_scope.

Variable E : Env.

Lemma validate_next_valid (message : option Json) (w w1 : World) u :
  validate message w = (Next u, w1) ->
  validation_failure message = None
  /\ trim u = u /\ 1 <= List.length u <= 1000.
Proof.
  unfold validate, validation_failure.
  destruct message as [[| | | m | |]|]; try discriminate.
  destruct (truthy m); simpl; [|discriminate].
  destruct (List.length (trim m) =? 0)%nat eqn:Hz; [discriminate|].
  destruct (1000 <? List.length (trim m))%nat eqn:Hlen; [discriminate|].
  intros [= <- <-]. apply Nat.eqb_neq in Hz. apply Nat.ltb_ge in Hlen.
  split; [reflexivity|]. split; [apply trim_idempotent | lia].
Qed.

Lemma validate_respond_invalid (message : option Json) (w w1 : World) r :
  validate message w = (Respond r, w1) ->
  validation_failure message <> None /\ status r = 400%Z.
Proof.
  intros Hv. split; [|exact (validate_responds_400 _ _ Hv)].
  intros Hnone. destruct (validate_passes _ w Hnone) as (m & _ & _ & Hnext).
  rewrite Hnext in Hv. discriminate Hv.
Qed.

Lemma chat_error_statuses (e : JsError) :
  (status (chat_error e) = 401%Z /\ err_status e = Some 401%Z)
  \/ (status (chat_error e) = 429%Z /\ err_status e = Some 429%Z)
  \/ (status (chat_error e) = 500%Z
      /\ err_status e <> Some 401%Z /\ err_status e <> Some 429%Z).
Proof.
  unfold chat_error. destruct (err_status e) as [st|].
  - destruct (Z.eqb_spec st 401) as [->|H401]; [left; auto|].
    destruct (Z.eqb_spec st 429) as [->|H429]; [right; left; auto|].
    right. right.
    destruct (st =? 400)%Z; simpl; repeat split; congruence.
  - right. right. simpl. repeat split; discriminate.
Qed.

(** The three shapes of a run, as far as the store goes: turned down by
    validation; stopped because the conversation could not be created;
    or resolved to a conversation, under which every row the request
    adds is stored, two rows exactly when it succeeds. *)
Lemma post_message_store (req : MessageRequest) (w : World) :
  (validation_failure (req_message req) <> None
   /\ snd (post_message E req w) = w
   /\ status (fst (post_message E req w)) = 400%Z)
  \/ (validation_failure (req_message req) = None
      /\ wants_new (req_conversationId req) (db w) = true
      /\ has_conversation (uuid_src E (uuid_draws w)) (db w) = true
      /\ fst (post_message E req w) = chat_error SqliteError
      /\ db (snd (post_message E req w)) = db w
      /\ groq_log (snd (post_message E req w)) = groq_log w)
  \/ (validation_failure (req_message req) = None
      /\ exists convId isNew w1 added,
           resolve_conversation E (req_conversationId req) w
           = (Next (convId, isNew), w1)
           /\ conversations (db (snd (post_message E req w)))
              = conversations (db w1)
           /\ messages (db (snd (post_message E req w)))
              = messages (db w) ++ added
           /\ Forall (fun m => conversation_id m = convId) added
           /\ ((List.length added <= 1
                /\ exists e, fst (post_message E req w) = chat_error e)
               \/ (List.length added = 2
                   /\ exists v ts,
                        truthy (aiReply v) = true
                        /\ fst (post_message E req w)
                           = res_json 200 (success_body v convId isNew ts)))).
Proof.
  pose proof (post_message_run E req w) as Hrun.
  destruct (post_message E req w) as [r w'] eqn:Hpost. simpl in *.
  inversion Hrun as
    [ r0 Hv0
    | u e w1 Hv0 Hr0
    | u convId isNew w1 Hv0 Hr0 Hu
    | u convId isNew w1 d2 w2 v called w3 Hv0 Hr0 Hu Hw2 Hloop Hw3 Ht
    | u convId isNew w1 d2 w2 v called w3 Hv0 Hr0 Hu Hw2 Hloop Hw3 Ht Ha
    | u convId isNew w1 d2 w2 v called w3 d4 Hv0 Hr0 Hu Hw2 Hloop Hw3 Ht Ha ];
    subst.
  - left. destruct (validate_respond_invalid _ _ Hv0). auto.
  - right. left. destruct (validate_next_valid _ _ Hv0) as (Hvalid & _).
    destruct (unresolved _ _ _ Hr0) as (-> & -> & Hdup).
    assert (Hnew : wants_new (req_conversationId req) (db w) = true).
    { rewrite resolve_conversation_run in Hr0.
      destruct (wants_new (req_conversationId req) (db w)) eqn:Hn;
        [reflexivity|].
      revert Hn Hr0. destruct (req_conversationId req); intros Hn Hr0;
        [discriminate Hr0 | discriminate Hn]. }
    auto 7.
  - right. right. destruct (validate_next_valid _ _ Hv0) as (Hvalid & _).
    split; [exact Hvalid|].
    destruct (resolved_store _ _ _ Hr0) as (Hmsgs & _).
    exists convId, isNew, w1, []. simpl. rewrite app_nil_r.
    repeat split; auto. left. split; [lia | eauto].
  - right. right. destruct (validate_next_valid _ _ Hv0) as (Hvalid & _).
    split; [exact Hvalid|].
    destruct (resolved_store _ _ _ Hr0) as (Hmsgs & _).
    apply insert_message_some in Hu as (_ & _ & ->).
    exists convId, isNew, w1. eexists [_]. simpl. rewrite Hmsgs.
    repeat split; auto. left. split; [simpl; lia | eauto].
  - right. right. destruct (validate_next_valid _ _ Hv0) as (Hvalid & _).
    split; [exact Hvalid|].
    destruct (resolved_store _ _ _ Hr0) as (Hmsgs & _).
    apply insert_message_some in Hu as (_ & _ & ->).
    exists convId, isNew, w1. eexists [_]. simpl. rewrite Hmsgs.
    repeat split; auto. left. split; [simpl; lia | eauto].
  - right. right. destruct (validate_next_valid _ _ Hv0) as (Hvalid & _).
    split; [exact Hvalid|].
    destruct (resolved_store _ _ _ Hr0) as (Hmsgs & _).
    apply insert_message_some in Hu as (_ & _ & ->).
    apply insert_message_some in Ha as (_ & _ & ->).
    exists convId, isNew, w1. eexists [_; _]. simpl. rewrite Hmsgs.
    split; [exact Hr0|]. split; [reflexivity|].
    split; [rewrite <- app_assoc; reflexivity|].
    split; [repeat constructor|]. right. split; [reflexivity|]. eauto.
Qed.

End StoreEffects.

Section ChatRequests.

Local Open Scope string_scope.
Local Open Scope list_scope.

Variable E : Env.

Lemma history_response (c : jsstring) (w : World) :
  get_conversation c w
  = (match select_conversation c (db w) with
     | None => not_found
     | Some conversation =>
         res_json 200
           (JObj [("success", JBool true);
                  ("conversationId", JStr c);
                  ("createdAt", JNum (conv_created_at conversation));
                  ("messageCount",
                   JNum (Z.of_nat (List.length (select_messages_asc c (db w)))));
                  ("messages",
                   JArr (map message_json (select_messages_asc c (db w))))])
     end, w).
Proof.
  unfold get_conversation, try_catch, history_route, bind, query.
  destruct (select_conversation c (db w)); reflexivity.
Qed.

Lemma select_conversation_app (c : jsstring) convs extra msgs :
  Forall (fun r => conv_id r <> c) extra ->
  select_conversation c (mkDatabase (convs ++ extra) msgs)
  = select_conversation c (mkDatabase convs msgs).
Proof.
  intros Hextra. unfold select_conversation. simpl.
  induction convs as [|x convs IH]; simpl.
  - induction Hextra as [|y extra Hy _ IHe]; simpl; [reflexivity|].
    apply eqb_neq in Hy. now rewrite Hy.
  - destruct (Js.eqb (conv_id x) c); [reflexivity | exact IH].
Qed.

(** A history depends on the store through the conversation's row and
    the conversation's messages only. *)
Lemma history_frame (c : jsstring) (w w' : World) :
  select_conversation c (db w') = select_conversation c (db w) ->
  filter (of_conversation c) (messages (db w'))
  = filter (of_conversation c) (messages (db w)) ->
  fst (get_conversation c w') = fst (get_conversation c w).
Proof.
  intros Hconv Hrows. rewrite !history_response. simpl.
  unfold select_messages_asc, index_scan. now rewrite Hconv, Hrows.
Qed.

(** X2. The status of a chat response is 200, 400, 401, 429 or 500, and
    it is 400 exactly when the message fails validation: an error of
    the provider that carries status 400 is answered 500. *)
Theorem bad_request_iff_invalid (req : MessageRequest) (w : World) :
  In (status (fst (post_message E req w))) [200; 400; 401; 429; 500]%Z
  /\ (status (fst (post_message E req w)) = 400%Z
      <-> validation_failure (req_message req) <> None).
Proof.
  assert (Herr : forall e,
    In (status (chat_error e)) [200; 400; 401; 429; 500]%Z
    /\ status (chat_error e) <> 400%Z).
  { intros e.
    destruct (chat_error_statuses e) as [[-> _] | [[-> _] | [-> _]]];
      simpl; split; auto 6; discriminate. }
  destruct (post_message_store E req w)
    as [(Hbad & _ & ->)
       | [(Hok & _ & _ & -> & _)
         | (Hok & convId & isNew & w1 & added & _ & _ & _ & _
            & [(_ & e & ->) | (_ & v & ts & _ & ->)])]].
  - split; [simpl; auto | tauto].
  - destruct (Herr SqliteError) as [Hin Hne]. split; [exact Hin|].
    split; [contradiction | congruence].
  - destruct (Herr e) as [Hin Hne]. split; [exact Hin|].
    split; [contradiction | congruence].
  - split; [simpl; auto|]. simpl. split; [discriminate | congruence].
Qed.

(** X3. A chat request only appends: the rows stored before stay as
    they are, at most one conversation and at most two messages are
    added, all under one conversation id, and what GET
    /api/conversation/:id answers for every other id is what it
    answered before. *)
Theorem chat_request_appends (req : MessageRequest) (w : World) :
  exists convId convs added,
    conversations (db (snd (post_message E req w)))
    = conversations (db w) ++ convs
    /\ messages (db (snd (post_message E req w))) = messages (db w) ++ added
    /\ List.length convs <= 1 /\ List.length added <= 2
    /\ Forall (fun r => conv_id r = convId) convs
    /\ Forall (fun m => conversation_id m = convId) added
    /\ forall c, c <> convId ->
         fst (get_conversation c (snd (post_message E req w)))
         = fst (get_conversation c w).
Proof.
  destruct (post_message_store E req w)
    as [(_ & -> & _)
       | [(_ & _ & _ & _ & Hdb & _)
         | (_ & convId & isNew & w1 & added & Hres & Hconvs & Hmsgs & Hadded
            & Hlen)]].
  - exists [], [], []. rewrite !app_nil_r. repeat split; auto.
  - exists [], [], []. rewrite Hdb, !app_nil_r. repeat split; auto.
    intros c _. apply history_frame; now rewrite Hdb.
  - assert (Hlen2 : List.length added <= 2).
    { destruct Hlen as [[Hle _] | [-> _]]; lia. }
    assert (Hframe : forall c, c <> convId ->
      filter (of_conversation c) (messages (db (snd (post_message E req w))))
      = filter (of_conversation c) (messages (db w))).
    { intros c Hc. rewrite Hmsgs.
      apply filter_other_conversation with (other := convId); auto. }
    destruct (resolved _ _ _ Hres)
      as [(_ & _ & -> & _) | (_ & _ & _ & _ & ->)].
    + exists convId, [], added. rewrite app_nil_r.
      repeat split; auto.
      intros c Hc. apply history_frame; [|now apply Hframe].
      unfold select_conversation. now rewrite Hconvs.
    + exists convId, [mkConversation convId (clock E (clock_reads w))], added.
      simpl in Hconvs. repeat split; auto.
      intros c Hc. apply history_frame; [|now apply Hframe].
      destruct (db (snd (post_message E req w))) as [convs' msgs'].
      simpl in Hconvs. subst convs'.
      rewrite select_conversation_app;
        [|constructor; [simpl; congruence | constructor]].
      unfold select_conversation. reflexivity.
Qed.

(** X4. A request that names a stored conversation reuses it: no
    conversation row is added, whatever the request stores goes under
    the id sent, and a success response carries that id with
    [isNewConversation: false]. *)
Theorem known_conversation_reused (req : MessageRequest) (w : World)
    (cid : jsstring) :
  req_conversationId req = Some cid ->
  cid <> [] ->
  has_conversation cid (db w) = true ->
  conversations (db (snd (post_message E req w))) = conversations (db w)
  /\ (exists added,
        messages (db (snd (post_message E req w))) = messages (db w) ++ added
        /\ Forall (fun m => conversation_id m = cid) added)
  /\ (status (fst (post_message E req w)) = 200%Z ->
      field "isNewConversation" (body (fst (post_message E req w)))
      = Some (JBool false)
      /\ field "conversationId" (body (fst (post_message E req w)))
         = Some (JStr cid)).
Proof.
  intros Hcid Hne Hstored.
  assert (Hold : wants_new (req_conversationId req) (db w) = false).
  { rewrite Hcid. simpl. rewrite Hstored.
    destruct cid; [contradiction | reflexivity]. }
  destruct (post_message_store E req w)
    as [(_ & -> & Hst)
       | [(_ & Hnew & _)
         | (_ & convId & isNew & w1 & added & Hres & Hconvs & Hmsgs & Hadded
            & Hlen)]].
  - split; [reflexivity|]. split.
    + exists []. now rewrite app_nil_r.
    + rewrite Hst. discriminate.
  - rewrite Hold in Hnew. discriminate Hnew.
  - destruct (resolved _ _ _ Hres)
      as [(-> & Hsame & -> & _) | (_ & Hnew & _)];
      [|rewrite Hold in Hnew; discriminate Hnew].
    rewrite Hcid in Hsame. injection Hsame as <-.
    split; [exact Hconvs|]. split; [eauto|].
    destruct Hlen as [(_ & e & ->) | (_ & v & ts & _ & ->)].
    + intros Hst. now elim (chat_error_status e).
    + intros _. split; reflexivity.
Qed.

(** X5. A valid request that sends no conversation id, or the empty
    string for one, creates a conversation under the next uuid (when no
    stored conversation has it), stamped with the clock's reading;
    whatever the request stores goes under it, and the response is the
    success response with that id and [isNewConversation: true], or the
    fallback of the route's catch. *)
Theorem absent_conversation_created (req : MessageRequest) (w : World) :
  validation_failure (req_message req) = None ->
  req_conversationId req = None \/ req_conversationId req = Some [] ->
  has_conversation (uuid_src E (uuid_draws w)) (db w) = false ->
  conversations (db (snd (post_message E req w)))
  = conversations (db w)
      ++ [mkConversation (uuid_src E (uuid_draws w)) (clock E (clock_reads w))]
  /\ (exists added,
        messages (db (snd (post_message E req w))) = messages (db w) ++ added
        /\ Forall (fun m => conversation_id m = uuid_src E (uuid_draws w)) added)
  /\ ((status (fst (post_message E req w)) = 200%Z
       /\ field "isNewConversation" (body (fst (post_message E req w)))
          = Some (JBool true)
       /\ field "conversationId" (body (fst (post_message E req w)))
          = Some (JStr (uuid_src E (uuid_draws w))))
      \/ exists e, fst (post_message E req w) = chat_error e).
Proof.
  intros Hvalid Hnone Hfresh.
  assert (Hnew : wants_new (req_conversationId req) (db w) = true).
  { destruct Hnone as [-> | ->]; reflexivity. }
  destruct (post_message_store E req w)
    as [(Hbad & _)
       | [(_ & _ & Hdup & _)
         | (_ & convId & isNew & w1 & added & Hres & Hconvs & Hmsgs & Hadded
            & Hlen)]].
  - contradiction.
  - rewrite Hfresh in Hdup. discriminate Hdup.
  - destruct (resolved _ _ _ Hres)
      as [(_ & _ & _ & Hold & _) | (-> & _ & -> & _ & ->)];
      [rewrite Hnew in Hold; discriminate Hold|].
    split; [exact Hconvs|]. split; [eauto|].
    destruct Hlen as [(_ & e & ->) | (_ & v & ts & _ & ->)].
    + right. eauto.
    + left. repeat split; reflexivity.
Qed.

End ChatRequests.

(* ===================================================================== *)
(** ** The fallback loop, both ways *)
(* ===================================================================== *)

Section Candidates.

Local Open Scope string_scope.
Local Open Scope list_scope.

Variable E : Env.

(** When every call fails the loop has called every model and keeps
    the error of the last. *)
Lemma loop_all_fail (init : list jsstring) (model : jsstring) (e : JsError) :
  forall (n : nat) (v : LoopVars),
    (forall i, i < List.length init -> exists e', groq E (n + i) = Failed e') ->
    groq E (n + List.length init) = Failed e ->
    loop_outcome E n (init ++ [model]) v
    = (mkLoop (aiReply v) model (Some e), init ++ [model]).
Proof.
  induction init as [|p init IH]; intros n v Hfail Hlast; simpl.
  - rewrite Nat.add_0_r in Hlast. now rewrite Hlast.
  - destruct (Hfail 0) as [e0 He0]; [simpl; lia|].
    rewrite Nat.add_0_r in He0. rewrite He0.
    rewrite (IH (S n) (mkLoop (aiReply v) p (Some e0))).
    + reflexivity.
    + intros i Hi. destruct (Hfail (S i)) as [e' He']; [simpl; lia|].
      exists e'. now rewrite Nat.add_succ_comm.
    + simpl in Hlast. now rewrite Nat.add_succ_comm.
Qed.

(** A loop entered without a reply and left with one was left at the
    first call that completed. *)
Lemma loop_outcome_replied (models : list jsstring) :
  forall (n : nat) (v v' : LoopVars) (called : list jsstring),
    loop_outcome E n models v = (v', called) ->
    truthy (aiReply v) = false ->
    truthy (aiReply v') = true ->
    exists pre model post c,
      models = pre ++ model :: post
      /\ called = pre ++ [model]
      /\ (forall i, i < List.length pre -> exists e, groq E (n + i) = Failed e)
      /\ groq E (n + List.length pre) = Completed c
      /\ aiReply v' = reply_of c
      /\ modelUsed v' = model.
Proof.
  induction models as [|m models IH]; intros n v v' called Hloop Hv Hv'.
  - simpl in Hloop. injection Hloop as <- <-. congruence.
  - simpl in Hloop. destruct (groq E n) as [c|e] eqn:Hn.
    + injection Hloop as <- <-.
      exists [], m, models, c. simpl. rewrite Nat.add_0_r.
      repeat split; auto. intros i Hi. lia.
    + destruct (loop_outcome E (S n) models (mkLoop (aiReply v) m (Some e)))
        as [v1 called1] eqn:Hrest.
      injection Hloop as <- <-.
      destruct (IH _ _ _ _ Hrest Hv Hv')
        as (pre & model & post & c & -> & -> & Hfail & Hok & Hreply & Hmodel).
      exists (m :: pre), model, post, c. simpl.
      repeat split; auto.
      * intros [|i] Hi.
        -- rewrite Nat.add_0_r. eauto.
        -- rewrite <- Nat.add_succ_comm. apply Hfail. lia.
      * now rewrite <- Nat.add_succ_comm.
Qed.

(** X6. When all four calls fail, a valid request (with new uuids) is
    answered by the route's catch from the error of the last call
    alone: 401 or 429 when that error carries this status, 500
    otherwise. The user's message stays stored, no reply is stored, and
    the four candidates were each called once, in the list's order. *)
Theorem all_models_fail (req : MessageRequest) (w : World) (last : JsError) :
  validation_failure (req_message req) = None ->
  uuids_fresh E w 3 ->
  (forall i, i < 3 -> exists e, groq E (List.length (groq_log w) + i) = Failed e) ->
  groq E (List.length (groq_log w) + 3) = Failed last ->
  exists m convId uid tu msgs w',
    req_message req = Some (JStr m)
    /\ post_message E req w = (chat_error last, w')
    /\ messages (db w')
       = messages (db w) ++ [mkMessage uid convId user (trim m) tu]
    /\ groq_log w' = groq_log w ++ calls_of modelsToTry msgs
    /\ ((status (chat_error last) = 401%Z /\ err_status last = Some 401%Z)
        \/ (status (chat_error last) = 429%Z /\ err_status last = Some 429%Z)
        \/ (status (chat_error last) = 500%Z
            /\ err_status last <> Some 401%Z
            /\ err_status last <> Some 429%Z)).
Proof.
  intros Hvalid Hfresh Hfail Hlast.
  destruct (validate_passes _ w Hvalid) as (m & Hm & _ & Hv).
  destruct (fresh_three Hfresh)
    as ((Hab & Hac & Hbc) & (Hac' & Ham) & (_ & Hbm) & (_ & Hcm)).
  pose proof (post_message_run E req w) as Hrun.
  destruct (post_message E req w) as [r w'] eqn:Hpost. simpl in Hrun.
  exists m.
  assert (Hloop_all : forall w1 v called,
    groq_log w1 = groq_log w ->
    loop_outcome E (List.length (groq_log w1)) modelsToTry (mkLoop [] [] None)
      = (v, called) ->
    v = mkLoop [] (js "llama-3.2-1b-preview") (Some last)
    /\ called = modelsToTry).
  { intros w1 v called Hlog Hloop. rewrite Hlog in Hloop.
    change modelsToTry
      with ([js "llama-3.1-8b-instant"; js "llama-3.2-3b-preview";
             js "gemma2-9b-it"] ++ [js "llama-3.2-1b-preview"]) in Hloop.
    rewrite (@loop_all_fail _ _ last) in Hloop; [|exact Hfail | exact Hlast].
    injection Hloop as <- <-. split; reflexivity. }
  inversion Hrun as
    [ r0 Hv0
    | u e w1 Hv0 Hr0
    | u convId isNew w1 Hv0 Hr0 Hu
    | u convId isNew w1 d2 w2 v called w3 Hv0 Hr0 Hu Hw2 Hloop Hw3 Ht
    | u convId isNew w1 d2 w2 v called w3 Hv0 Hr0 Hu Hw2 Hloop Hw3 Ht Ha
    | u convId isNew w1 d2 w2 v called w3 d4 Hv0 Hr0 Hu Hw2 Hloop Hw3 Ht Ha ];
    subst; rewrite Hv in Hv0; try discriminate Hv0;
    injection Hv0 as <-.
  - exfalso. apply unresolved in Hr0 as (_ & _ & Hdup). congruence.
  - exfalso.
    destruct (resolved_store _ _ _ Hr0) as (Hmsgs & _ & Hconv & _ & _).
    unfold insert_message in Hu. rewrite Hconv in Hu. simpl in Hu.
    assert (Hnew : has_message (uuid_src E (uuid_draws w1)) (db w1) = false).
    { unfold has_message. rewrite Hmsgs.
      destruct (resolved _ _ _ Hr0)
        as [(_ & _ & -> & _) | (_ & _ & _ & _ & ->)]; simpl.
      - exact Ham.
      - exact Hbm. }
    rewrite Hnew in Hu. discriminate Hu.
  - destruct (resolved_store _ _ _ Hr0) as (Hmsgs & Hlog & _).
    destruct (Hloop_all (read_clock (set_db d2 (drew_uuid w1))) v called Hlog Hloop)
      as [-> ->].
    apply insert_message_some in Hu as (_ & _ & ->).
    exists convId. do 4 eexists.
    split; [exact Hm|]. split; [reflexivity|].
    simpl. rewrite Hmsgs, Hlog.
    split; [reflexivity|]. split; [reflexivity|].
    apply chat_error_statuses.
  - exfalso. destruct (resolved_store _ _ _ Hr0) as (_ & Hlog & _).
    destruct (Hloop_all (read_clock (set_db d2 (drew_uuid w1))) v called Hlog Hloop)
      as [-> _].
    discriminate Ht.
  - exfalso. destruct (resolved_store _ _ _ Hr0) as (_ & Hlog & _).
    destruct (Hloop_all (read_clock (set_db d2 (drew_uuid w1))) v called Hlog Hloop)
      as [-> _].
    discriminate Ht.
Qed.

(** X7. A success response names the first candidate whose call
    completed: every candidate before it was called and failed, none
    after it was called, and the reply, never empty, is that
    completion's. *)
Theorem success_names_first_working_model (req : MessageRequest) (w : World) :
  status (fst (post_message E req w)) = 200%Z ->
  exists pre model post c msgs,
    modelsToTry = pre ++ model :: post
    /\ (forall i, i < List.length pre ->
                  exists e, groq E (List.length (groq_log w) + i) = Failed e)
    /\ groq E (List.length (groq_log w) + List.length pre) = Completed c
    /\ field "modelUsed" (body (fst (post_message E req w)))
       = Some (JStr model)
    /\ field "reply" (body (fst (post_message E req w)))
       = Some (JStr (reply_of c))
    /\ reply_of c <> []
    /\ groq_log (snd (post_message E req w))
       = groq_log w ++ calls_of (pre ++ [model]) msgs.
Proof.
  pose proof (post_message_run E req w) as Hrun.
  destruct (post_message E req w) as [r w'] eqn:Hpost. simpl in *.
  intros Hstatus.
  inversion Hrun as
    [ r0 Hv0
    | u e w1 Hv0 Hr0
    | u convId isNew w1 Hv0 Hr0 Hu
    | u convId isNew w1 d2 w2 v called w3 Hv0 Hr0 Hu Hw2 Hloop Hw3 Ht
    | u convId isNew w1 d2 w2 v called w3 d4' Hv0 Hr0 Hu Hw2 Hloop Hw3 Ht Ha
    | u convId isNew w1 d2 w2 v called w3 d4 Hv0 Hr0 Hu Hw2 Hloop Hw3 Ht Ha ];
    subst; try (exfalso; now apply (chat_error_status _ Hstatus)).
  - apply validate_responds_400 in Hv0. rewrite Hv0 in Hstatus. discriminate.
  - destruct (resolved_store _ _ _ Hr0) as (_ & Hlog & _).
    simpl groq_log in Hloop. rewrite Hlog in Hloop.
    destruct (loop_outcome_replied _ _ _ Hloop eq_refl Ht)
      as (pre & model & post & c & Hmodels & -> & Hfail & Hok & Hreply & Hmodel).
    exists pre, model, post, c. eexists.
    split; [exact Hmodels|]. split; [exact Hfail|]. split; [exact Hok|].
    simpl. rewrite Hreply, Hmodel, Hlog.
    split; [reflexivity|]. split; [reflexivity|]. split; [|reflexivity].
    intros Hempty. pose proof (truthy_reply_of c) as Htruthy.
    rewrite Hempty in Htruthy. discriminate Htruthy.
Qed.

End Candidates.

(* ===================================================================== *)
(** ** The newest rows of a history *)
(* ===================================================================== *)

Section Newest.

Local Open Scope string_scope.
Local Open Scope list_scope.





Variable E : Env.

Hypothesis clock_monotone :
  forall i j, i <= j -> (clock E i <= clock E j)%Z.



End Newest.

(* ===================================================================== *)
(** ** What every store keeps *)
(* ===================================================================== *)

Section Invariants.

Local Open Scope string_scope.
Local Open Scope list_scope.

Lemma has_conversation_In (c : jsstring) (d : Database) :
  has_conversation c d = true <-> In c (map conv_id (conversations d)).
Proof.
  unfold has_conversation. rewrite existsb_exists, in_map_iff.
  split; intros (r & H1 & H2).
  - exists r. apply eqb_eq in H2. auto.
  - exists r. split; [exact H2 | now apply eqb_eq].
Qed.

Lemma has_message_In (mid : jsstring) (d : Database) :
  has_message mid d = true <-> In mid (map id (messages d)).
Proof.
  unfold has_message. rewrite existsb_exists, in_map_iff.
  split; intros (r & H1 & H2).
  - exists r. apply eqb_eq in H2. auto.
  - exists r. split; [exact H2 | now apply eqb_eq].
Qed.

Lemma NoDup_snoc {A} (l : list A) (x : A) :
  NoDup l -> ~ In x l -> NoDup (l ++ [x]).
Proof.
  intros Hl Hx. apply (NoDup_Add (Add_app x l [])).
  now rewrite app_nil_r.
Qed.

Lemma unique_keys_filtered {Row Key} (keep : Row -> bool) (key : Row -> Key) :
  forall rows : list Row,
    NoDup (map key rows) -> NoDup (map key (filter keep rows)).
Proof.
  intros rows. induction rows as [|row rows IH]; simpl; intros Hkeys.
  - exact Hkeys.
  - apply NoDup_cons_iff in Hkeys as [Hrow Hrest].
    destruct (keep row); simpl; [|now apply IH].
    apply NoDup_cons_iff. split; [|now apply IH].
    rewrite in_map_iff. intros (other & Hsame & Hin).
    apply filter_In in Hin as [Hin _].
    apply Hrow. rewrite <- Hsame. now apply in_map.
Qed.

Lemma insert_conversation_consistent c now (d d' : Database) :
  consistent d -> insert_conversation c now d = Some d' -> consistent d'.
Proof.
  intros (Hconvs & Hmsgs & Hfk) Hins.
  apply insert_conversation_some in Hins as [Hfresh ->].
  unfold consistent. simpl. split; [|split; [exact Hmsgs|]].
  - rewrite map_app. simpl. apply NoDup_snoc; [exact Hconvs|].
    intros Hin. apply has_conversation_In in Hin. congruence.
  - eapply Forall_impl; [|exact Hfk]. simpl. intros m Hm.
    rewrite has_conversation_app. unfold has_conversation in Hm |- *.
    simpl. now rewrite Hm.
Qed.

Lemma insert_message_consistent mid c s t now (d d' : Database) :
  consistent d -> insert_message mid c s t now d = Some d' -> consistent d'.
Proof.
  intros (Hconvs & Hmsgs & Hfk) Hins.
  apply insert_message_some in Hins as (Hfresh & Hparent & ->).
  unfold consistent. simpl. split; [exact Hconvs|]. split.
  - rewrite map_app. simpl. apply NoDup_snoc; [exact Hmsgs|].
    intros Hin. apply has_message_In in Hin. congruence.
  - apply Forall_app. split.
    + exact Hfk.
    + constructor; [exact Hparent | constructor].
Qed.

Lemma delete_conversation_consistent c (d : Database) :
  consistent d -> consistent (delete_conversation c d).
Proof.
  intros (Hconvs & Hmsgs & Hfk).
  unfold consistent, delete_conversation. simpl.
  split; [now apply unique_keys_filtered|]. split; [now apply unique_keys_filtered|].
  apply Forall_forall. intros m Hm. apply filter_In in Hm as [Hm Hother].
  rewrite Forall_forall in Hfk. specialize (Hfk m Hm).
  unfold has_conversation in Hfk |- *. simpl.
  apply existsb_exists in Hfk as (r & Hr & Hid).
  apply existsb_exists. exists r. split; [|exact Hid].
  apply filter_In. split; [exact Hr|].
  apply eqb_eq in Hid. rewrite Hid.
  unfold of_conversation in Hother. exact Hother.
Qed.

Variable E : Env.

(** The statements a chat request runs on the store: at most one
    insertion of a conversation, then at most one of a user's message,
    trimmed and of 1 to 1000 code units, then at most one of a
    non-empty reply. *)
Lemma post_message_statements (req : MessageRequest) (w : World) :
  exists d1 d2,
    (d1 = db w \/ exists c t, insert_conversation c t (db w) = Some d1)
    /\ (d2 = d1
        \/ exists mid c u t,
             insert_message mid c user u t d1 = Some d2
             /\ trim u = u /\ 1 <= List.length u <= 1000)
    /\ (db (snd (post_message E req w)) = d2
        \/ exists mid c reply t,
             insert_message mid c ai reply t d2
             = Some (db (snd (post_message E req w)))
             /\ reply <> []).
Proof.
  pose proof (post_message_run E req w) as Hrun.
  destruct (post_message E req w) as [r w'] eqn:Hpost. simpl in *.
  assert (Hres : forall cid convId isNew w1,
    resolve_conversation E cid w = (Next (convId, isNew), w1) ->
    db w1 = db w \/ exists c t, insert_conversation c t (db w) = Some (db w1)).
  { intros cid convId isNew w1 Hr.
    destruct (resolved _ _ _ Hr)
      as [(_ & _ & -> & _) | (_ & _ & _ & Hfresh & ->)]; [now left|].
    right. exists convId, (clock E (clock_reads w)).
    unfold insert_conversation. now rewrite Hfresh. }
  inversion Hrun as
    [ r0 Hv0
    | u e w1 Hv0 Hr0
    | u convId isNew w1 Hv0 Hr0 Hu
    | u convId isNew w1 d2 w2 v called w3 Hv0 Hr0 Hu Hw2 Hloop Hw3 Ht
    | u convId isNew w1 d2 w2 v called w3 Hv0 Hr0 Hu Hw2 Hloop Hw3 Ht Ha
    | u convId isNew w1 d2 w2 v called w3 d4 Hv0 Hr0 Hu Hw2 Hloop Hw3 Ht Ha ];
    subst.
  - exists (db w'), (db w'). auto.
  - apply unresolved in Hr0 as (_ & -> & _). exists (db w), (db w). auto.
  - exists (db w1), (db w1). split; [exact (Hres _ _ _ _ Hr0)|]. auto.
  - destruct (validate_next_valid _ _ Hv0) as (_ & Htrim & Hlen).
    exists (db w1), d2. split; [exact (Hres _ _ _ _ Hr0)|].
    split; [right; eauto 8 | left; reflexivity].
  - destruct (validate_next_valid _ _ Hv0) as (_ & Htrim & Hlen).
    exists (db w1), d2. split; [exact (Hres _ _ _ _ Hr0)|].
    split; [right; eauto 8 | left; reflexivity].
  - destruct (validate_next_valid _ _ Hv0) as (_ & Htrim & Hlen).
    exists (db w1), d2. split; [exact (Hres _ _ _ _ Hr0)|].
    split; [right; eauto 8|]. right.
    exists (uuid_src E (S (uuid_draws w1))), convId, (aiReply v),
           (clock E (S (clock_reads w1))).
    split; [exact Ha|]. intros Hempty. rewrite Hempty in Ht. discriminate Ht.
Qed.

Lemma post_conversation_store (w : World) :
  db (snd (post_conversation E w)) = db w
  \/ exists c t, insert_conversation c t (db w)
                 = Some (db (snd (post_conversation E w))).
Proof.
  unfold post_conversation, try_catch, conversation_route, bind, uuidv4,
    run_insert. simpl.
  destruct (insert_conversation (uuid_src E (uuid_draws w))
              (clock E (clock_reads w)) (db w)) as [d|] eqn:Hins; simpl.
  - right. eauto.
  - now left.
Qed.

Lemma delete_route_store (c : jsstring) (w : World) :
  db (snd (delete_conversation_route c w)) = db w
  \/ db (snd (delete_conversation_route c w)) = delete_conversation c (db w).
Proof.
  unfold delete_conversation_route, try_catch, delete_route, bind, query.
  destruct (select_conversation c (db w)); simpl; auto.
Qed.

Lemma reading_routes_store (c : jsstring) (w : World) newest_first :
  snd (get_conversation c w) = w
  /\ snd (export_conversation c w) = w
  /\ snd (list_conversations newest_first w) = w
  /\ db (snd (health E w)) = db w.
Proof.
  unfold get_conversation, export_conversation, list_conversations, try_catch,
    history_route, export_route, list_route, bind, query.
  destruct (select_conversation c (db w)); simpl; auto.
Qed.

Variable newest_first : list ConversationRow -> list ConversationRow.

(** X10. The constraints of the schema are kept by every route: if the
    ids of each table name one row each and every message references a
    stored conversation, the same holds after any sequence of requests,
    whatever uuidv4, the clock and the provider return. *)
Theorem routes_keep_store_consistent (rqs : list Request) :
  forall w : World,
    consistent (db w) ->
    consistent (db (snd (serve_all E newest_first rqs w))).
Proof.
  induction rqs as [|rq rqs IH]; intros w Hw; [exact Hw|].
  simpl.
  assert (Hstep : consistent (db (snd (serve E newest_first rq w)))).
  { destruct rq as [| |req|c|c|c|]; cbn [serve].
    - now destruct (reading_routes_store [] w newest_first) as (_ & _ & _ & ->).
    - destruct (post_conversation_store w) as [-> | (c & t & Hins)];
        [exact Hw | exact (@insert_conversation_consistent _ _ _ _ Hw Hins)].
    - destruct (post_message_statements req w)
        as (d1 & d2 & H1 & H2 & H3).
      assert (Hd1 : consistent d1).
      { destruct H1 as [-> | (c & t & Hins)];
          [exact Hw | exact (@insert_conversation_consistent _ _ _ _ Hw Hins)]. }
      assert (Hd2 : consistent d2).
      { destruct H2 as [-> | (mid & c & u & t & Hins & _)];
          [exact Hd1 | exact (@insert_message_consistent _ _ _ _ _ _ _ Hd1 Hins)]. }
      destruct H3 as [-> | (mid & c & reply & t & Hins & _)];
        [exact Hd2 | exact (@insert_message_consistent _ _ _ _ _ _ _ Hd2 Hins)].
    - now destruct (reading_routes_store c w newest_first) as (-> & _).
    - now destruct (reading_routes_store c w newest_first) as (_ & -> & _).
    - destruct (delete_route_store c w) as [-> | ->];
        [exact Hw | now apply delete_conversation_consistent].
    - now destruct (reading_routes_store [] w newest_first) as (_ & _ & -> & _). }
  destruct (serve E newest_first rq w) as [r w1]. simpl in Hstep.
  specialize (IH w1 Hstep).
  destruct (serve_all E newest_first rqs w1) as [rs w']. exact IH.
Qed.

Lemma insert_message_text_ok mid c s t now (d d' : Database) :
  Forall text_ok (messages d) ->
  text_ok (mkMessage mid c s t now) ->
  insert_message mid c s t now d = Some d' ->
  Forall text_ok (messages d').
Proof.
  intros Hd Hm Hins. apply insert_message_some in Hins as (_ & _ & ->).
  simpl. apply Forall_app. split; [exact Hd|]. constructor; [exact Hm|constructor].
Qed.

(** X11. Every text in the store is one the chat route let in: if each
    user message held is trimmed and has 1 to 1000 code units and each
    reply held is non-empty, the same holds after any sequence of
    requests. *)
Theorem routes_keep_texts_valid (rqs : list Request) :
  forall w : World,
    Forall text_ok (messages (db w)) ->
    Forall text_ok (messages (db (snd (serve_all E newest_first rqs w)))).
Proof.
  induction rqs as [|rq rqs IH]; intros w Hw; [exact Hw|].
  simpl.
  assert (Hstep : Forall text_ok (messages (db (snd (serve E newest_first rq w))))).
  { destruct rq as [| |req|c|c|c|]; cbn [serve].
    - now destruct (reading_routes_store [] w newest_first) as (_ & _ & _ & ->).
    - destruct (post_conversation_store w) as [-> | (c & t & Hins)];
        [exact Hw|].
      apply insert_conversation_some in Hins as [_ ->]. exact Hw.
    - destruct (post_message_statements req w)
        as (d1 & d2 & H1 & H2 & H3).
      assert (Hd1 : Forall text_ok (messages d1)).
      { destruct H1 as [-> | (c & t & Hins)]; [exact Hw|].
        apply insert_conversation_some in Hins as [_ ->]. exact Hw. }
      assert (Hd2 : Forall text_ok (messages d2)).
      { destruct H2 as [-> | (mid & c & u & t & Hins & Htrim & Hlen)];
          [exact Hd1|].
        eapply insert_message_text_ok; [exact Hd1 | | exact Hins].
        unfold text_ok. simpl. auto. }
      destruct H3 as [-> | (mid & c & reply & t & Hins & Hreply)];
        [exact Hd2|].
      eapply insert_message_text_ok; [exact Hd2 | | exact Hins].
      exact Hreply.
    - now destruct (reading_routes_store c w newest_first) as (-> & _).
    - now destruct (reading_routes_store c w newest_first) as (_ & -> & _).
    - destruct (delete_route_store c w) as [-> | ->]; [exact Hw|].
      simpl. apply Forall_forall. intros m Hm.
      apply filter_In in Hm as [Hm _].
      rewrite Forall_forall in Hw. now apply Hw.
    - now destruct (reading_routes_store [] w newest_first) as (_ & _ & -> & _). }
  destruct (serve E newest_first rq w) as [r w1]. simpl in Hstep.
  specialize (IH w1 Hstep).
  destruct (serve_all E newest_first rqs w1) as [rs w']. exact IH.
Qed.

End Invariants.

(* ===================================================================== *)
(** ** Creating, deleting and listing conversations *)
(* ===================================================================== *)

Section Conversations.

Local Open Scope string_scope.
Local Open Scope list_scope.

Variable E : Env.

Lemma no_message_without_conversation (c : jsstring) (d : Database) :
  consistent d ->
  has_conversation c d = false ->
  filter (of_conversation c) (messages d) = [].
Proof.
  intros (_ & _ & Hfk) Hc.
  induction Hfk as [|m l Hm _ IH]; simpl; [reflexivity|].
  unfold of_conversation at 1.
  destruct (Js.eqb (conversation_id m) c) eqn:Heq; [|exact IH].
  apply eqb_eq in Heq. congruence.
Qed.

(** X12. POST /api/conversation on a store that keeps the schema's
    constraints: when no stored conversation has the next uuid, the
    answer is 200 with that id, and GET /api/conversation/:id for it
    then answers 200 with [messageCount: 0], no message, and the time
    of creation; when a stored conversation has it, the answer is 500
    'Failed to create conversation' and the store is unchanged. *)
Theorem new_conversation_is_empty (w : World) :
  consistent (db w) ->
  let newId := uuid_src E (uuid_draws w) in
  (has_conversation newId (db w) = false ->
   fst (post_conversation E w)
   = res_json 200
       (JObj [("success", JBool true);
              ("conversationId", JStr newId);
              ("message", JStr (js "New conversation started"))])
   /\ fst (get_conversation newId (snd (post_conversation E w)))
      = res_json 200
          (JObj [("success", JBool true);
                 ("conversationId", JStr newId);
                 ("createdAt", JNum (clock E (clock_reads w)));
                 ("messageCount", JNum 0);
                 ("messages", JArr [])]))
  /\ (has_conversation newId (db w) = true ->
      fst (post_conversation E w)
      = res_json 500 (error_body "Failed to create conversation")
      /\ db (snd (post_conversation E w)) = db w).
Proof.
  intros Hw newId. split; intros Hid.
  - unfold post_conversation, try_catch, conversation_route, bind, uuidv4,
      run_insert, insert_conversation. simpl. fold newId. rewrite Hid. simpl.
    split; [reflexivity|].
    rewrite history_response. simpl.
    assert (Hsel : select_conversation newId
                     (mkDatabase (conversations (db w)
                                    ++ [mkConversation newId (clock E (clock_reads w))])
                                 (messages (db w)))
                   = Some (mkConversation newId (clock E (clock_reads w)))).
    { unfold select_conversation. simpl.
      pose proof (select_conversation_none _ _ Hid) as Hnone.
      unfold select_conversation in Hnone.
      induction (conversations (db w)) as [|x l IH]; simpl.
      - now rewrite eqb_refl.
      - simpl in Hnone. destruct (Js.eqb (conv_id x) newId);
          [discriminate Hnone | now apply IH]. }
    rewrite Hsel. unfold select_messages_asc, index_scan. simpl.
    now rewrite (@no_message_without_conversation _ _ Hw Hid).
  - unfold post_conversation, try_catch, conversation_route, bind, uuidv4,
      run_insert, insert_conversation. simpl. fold newId. rewrite Hid. simpl.
    split; reflexivity.
Qed.

Lemma select_conversation_deleted_other (c c' : jsstring) (d : Database) :
  c' <> c ->
  select_conversation c' (delete_conversation c d) = select_conversation c' d.
Proof.
  intros Hne. unfold select_conversation, delete_conversation. simpl.
  induction (conversations d) as [|x l IH]; simpl; [reflexivity|].
  destruct (Js.eqb (conv_id x) c) eqn:Hx; simpl.
  - apply eqb_eq in Hx.
    assert (Hx' : Js.eqb (conv_id x) c' = false).
    { apply eqb_neq. congruence. }
    now rewrite Hx'.
  - destruct (Js.eqb (conv_id x) c'); [reflexivity | exact IH].
Qed.

Lemma messages_deleted_other (c c' : jsstring) (d : Database) :
  c' <> c ->
  filter (of_conversation c') (messages (delete_conversation c d))
  = filter (of_conversation c') (messages d).
Proof.
  intros Hne. unfold delete_conversation. simpl.
  induction (messages d) as [|m l IH]; simpl; [reflexivity|].
  destruct (of_conversation c m) eqn:Hm; simpl.
  - assert (Hm' : of_conversation c' m = false).
    { unfold of_conversation in Hm |- *. apply eqb_eq in Hm.
      apply eqb_neq. congruence. }
    now rewrite Hm'.
  - destruct (of_conversation c' m); [now rewrite IH | exact IH].
Qed.

(** X13. DELETE /api/conversation/:id touches one conversation: for an
    id the store does not have it answers 404 and changes nothing, and
    so does a second DELETE of an id just deleted; and whatever the id,
    GET /api/conversation/:id for every other id answers after the
    DELETE what it answered before. *)
Theorem delete_touches_one_conversation (c : jsstring) (w : World) :
  (has_conversation c (db w) = false ->
   delete_conversation_route c w = (not_found, w))
  /\ delete_conversation_route c (snd (delete_conversation_route c w))
     = (not_found, snd (delete_conversation_route c w))
  /\ forall c', c' <> c ->
       fst (get_conversation c' (snd (delete_conversation_route c w)))
       = fst (get_conversation c' w).
Proof.
  assert (Hunknown : forall w0, has_conversation c (db w0) = false ->
            delete_conversation_route c w0 = (not_found, w0)).
  { intros w0 Hc.
    unfold delete_conversation_route, try_catch, delete_route, bind, query.
    now rewrite (select_conversation_none _ _ Hc). }
  split; [apply Hunknown|].
  destruct (has_conversation c (db w)) eqn:Hc.
  - destruct (select_conversation_has _ _ Hc) as (row & Hrow & _).
    assert (Hrun : snd (delete_conversation_route c w)
                   = set_db (delete_conversation c (db w)) w).
    { unfold delete_conversation_route, try_catch, delete_route, bind, query.
      now rewrite Hrow. }
    rewrite Hrun. split.
    + apply Hunknown. simpl. apply deleted_conversation_gone.
    + intros c' Hne. apply history_frame; simpl.
      * now apply select_conversation_deleted_other.
      * now apply messages_deleted_other.
  - rewrite (Hunknown w Hc). simpl. split; [now apply Hunknown | auto].
Qed.

Lemma length_insert_by_created_at m l :
  List.length (insert_by_created_at m l) = S (List.length l).
Proof.
  induction l as [|x l IH]; simpl; [reflexivity|].
  destruct (created_at m <=? created_at x)%Z; simpl; [reflexivity|].
  now rewrite IH.
Qed.

Lemma length_order_by_created_at l :
  List.length (order_by_created_at l) = List.length l.
Proof.
  induction l as [|m l IH]; simpl; [reflexivity|].
  now rewrite length_insert_by_created_at, IH.
Qed.

Variable newest_first : list ConversationRow -> list ConversationRow.

Hypothesis newest_first_sorts : sorts_newest_first newest_first.

(** X14. The list and the history agree: GET /api/conversations
    answers 200 with one entry for each conversation row the sorter
    returns, none newer than an entry before it, and leaves the store
    as it was; for every stored conversation the list has an entry of
    its id and time of creation whose [messageCount] is the
    [messageCount] that GET /api/conversation/:id answers for that id,
    and the length of the [messages] sent there. *)
Theorem list_count_is_history_count (w : World) (r : ConversationRow) :
  In r (conversations (db w)) ->
  exists shown entries n rows,
    list_conversations newest_first w
    = (res_json 200
         (JObj [("success", JBool true); ("conversations", JArr entries)]), w)
    /\ entries = map (conversation_summary (db w)) shown
    /\ StronglySorted (fun a b => (conv_created_at b <= conv_created_at a)%Z)
         shown
    /\ In (JObj [("id", JStr (conv_id r));
                 ("createdAt", JNum (conv_created_at r));
                 ("messageCount", JNum n)]) entries
    /\ List.length entries = List.length (conversations (db w))
    /\ status (fst (get_conversation (conv_id r) w)) = 200%Z
    /\ field "messageCount" (body (fst (get_conversation (conv_id r) w)))
       = Some (JNum n)
    /\ field "messages" (body (fst (get_conversation (conv_id r) w)))
       = Some (JArr (map message_json rows))
    /\ n = Z.of_nat (List.length rows).
Proof.
  intros Hr.
  destruct (newest_first_sorts (conversations (db w))) as (Hin & Hlen & Hsorted).
  assert (Hc : has_conversation (conv_id r) (db w) = true).
  { apply has_conversation_In. now apply in_map. }
  destruct (select_conversation_has _ _ Hc) as (row & Hrow & _).
  exists (newest_first (conversations (db w))),
         (map (conversation_summary (db w)) (newest_first (conversations (db w)))),
         (Z.of_nat (count_messages (conv_id r) (db w))),
         (select_messages_asc (conv_id r) (db w)).
  split; [reflexivity|]. split; [reflexivity|]. split; [exact Hsorted|]. split.
  { apply in_map_iff. exists r. split; [reflexivity | now apply Hin]. }
  split; [now rewrite length_map|].
  rewrite history_response, Hrow. simpl.
  unfold select_messages_asc, index_scan, count_messages.
  rewrite length_order_by_created_at. auto.
Qed.

End Conversations.

(* ===================================================================== *)
(** ** The model probe *)
(* ===================================================================== *)

Section ModelProbe.

Local Open Scope string_scope.
Local Open Scope list_scope.

Variable E : Env.

Lemma check_loop_run (models : list jsstring) :
  forall w : World,
    exists result called,
      check_loop E models w
      = (Next result, logged (calls_of called test_messages) w)
      /\ ((result = None /\ called = models
           /\ forall i, i < List.length models ->
                exists e, groq E (List.length (groq_log w) + i) = Failed e)
          \/ exists pre model post c,
               result = Some model
               /\ models = pre ++ model :: post
               /\ called = pre ++ [model]
               /\ (forall i, i < List.length pre ->
                     exists e, groq E (List.length (groq_log w) + i) = Failed e)
               /\ groq E (List.length (groq_log w) + List.length pre)
                  = Completed c).
Proof.
  induction models as [|m models IH]; intros w.
  - exists None, []. simpl. rewrite logged_nil. split; [reflexivity|].
    left. repeat split. intros i Hi. simpl in Hi. lia.
  - simpl. unfold bind, groq_create.
    destruct (groq E (List.length (groq_log w))) as [c|e] eqn:Hn.
    + exists (Some m), [m]. split; [reflexivity|]. right.
      exists [], m, models, c. simpl. rewrite Nat.add_0_r.
      repeat split; auto. intros i Hi. lia.
    + destruct (IH (logged [mkCall m test_messages] w))
        as (result & called & Hrun & Hcases).
      exists result, (m :: called). rewrite Hrun, logged_logged.
      split; [reflexivity|].
      assert (Hshift : forall i,
        List.length (groq_log (logged [mkCall m test_messages] w)) + i
        = List.length (groq_log w) + S i).
      { intros i. simpl. rewrite length_app. simpl. lia. }
      destruct Hcases
        as [(-> & -> & Hfail) | (pre & model & post & c & -> & -> & -> & Hfail & Hok)].
      * left. repeat split. intros [|i] Hi.
        -- rewrite Nat.add_0_r. eauto.
        -- rewrite <- Hshift. apply Hfail. simpl in Hi. lia.
      * right. exists (m :: pre), model, post, c. simpl.
        repeat split; auto.
        -- intros [|i] Hi.
           ++ rewrite Nat.add_0_r. eauto.
           ++ rewrite <- Hshift. apply Hfail. lia.
        -- now rewrite <- Hshift.
Qed.

(** X15. The probe recommends the first model of its list whose call
    completes: it has then called the models before it, which all
    failed, and that model, and no model after it. It returns null
    exactly when the calls to all eight models failed. The store is not
    touched. *)
Theorem probe_returns_first_working_model (w : World) :
  exists result called,
    checkModels E w = (Next result, logged (calls_of called test_messages) w)
    /\ ((result = None /\ called = modelsToTest
         /\ forall i, i < 8 ->
              exists e, groq E (List.length (groq_log w) + i) = Failed e)
        \/ exists pre model post c,
             result = Some model
             /\ modelsToTest = pre ++ model :: post
             /\ called = pre ++ [model]
             /\ (forall i, i < List.length pre ->
                   exists e, groq E (List.length (groq_log w) + i) = Failed e)
             /\ groq E (List.length (groq_log w) + List.length pre)
                = Completed c).
Proof. exact (check_loop_run modelsToTest w). Qed.

End ModelProbe.

(* ===================================================================== *)
(** ** Sample runs *)
(* ===================================================================== *)

Section SampleRuns.

Local Open Scope string_scope.
Local Open Scope list_scope.

Lemma In_insert_newest r x l :
  In x (insert_newest r l) <-> x = r \/ In x l.
Proof.
  induction l as [|y l IH]; simpl.
  - intuition.
  - destruct (conv_created_at y <=? conv_created_at r)%Z; simpl.
    + intuition.
    + rewrite IH. intuition.
Qed.

Lemma insert_newest_sorted r l :
  StronglySorted (fun a b => (conv_created_at b <= conv_created_at a)%Z) l ->
  StronglySorted (fun a b => (conv_created_at b <= conv_created_at a)%Z)
    (insert_newest r l).
Proof.
  intros Hl. induction Hl as [|x l Hl IH Hx]; simpl.
  - constructor; constructor.
  - destruct (Z.leb_spec (conv_created_at x) (conv_created_at r)) as [Hle|Hgt].
    + constructor; [constructor; assumption|].
      constructor; [exact Hle|].
      eapply Forall_impl; [|exact Hx]. simpl. intros y Hy. lia.
    + constructor; [exact IH|].
      apply Forall_forall. intros y Hy. apply In_insert_newest in Hy as [-> | Hy].
      * lia.
      * rewrite Forall_forall in Hx. now apply Hx.
Qed.

(** Sorting by insertion is one of the sorters the list route may be
    run with. *)
Lemma by_insertion_sorts : sorts_newest_first by_insertion.
Proof.
  intros rows. induction rows as [|r rows (Hin & Hlen & Hsorted)]; simpl.
  - repeat split; auto. constructor.
  - split; [|split].
    + intros x. rewrite In_insert_newest, Hin. intuition.
    + assert (Hins : forall l, List.length (insert_newest r l) = S (List.length l)).
      { induction l as [|y l IHl]; simpl; [reflexivity|].
        destruct (conv_created_at y <=? conv_created_at r)%Z; simpl;
          [reflexivity | now rewrite IHl]. }
      now rewrite Hins, Hlen.
    + now apply insert_newest_sorted.
Defined.

Lemma fresh_world_consistent : consistent (db Sample.fresh_world).
Proof. repeat split; constructor. Defined.

Lemma one_chat_consistent : consistent (db Sample.one_chat).
Proof.
  vm_compute db. unfold consistent. simpl. split; [|split].
  - repeat constructor. simpl. tauto.
  - repeat constructor; simpl; intuition discriminate.
  - repeat constructor.
Defined.


Lemma known_conversation_reused_witness :
  conversations (db (snd (post_message Sample.ticking Sample.thanks
                            Sample.one_chat)))
  = conversations (db Sample.one_chat)
  /\ (exists added,
        messages (db (snd (post_message Sample.ticking Sample.thanks
                             Sample.one_chat)))
        = messages (db Sample.one_chat) ++ added
        /\ Forall (fun m => conversation_id m = [0%N]) added)
  /\ (status (fst (post_message Sample.ticking Sample.thanks Sample.one_chat))
      = 200%Z ->
      field "isNewConversation"
        (body (fst (post_message Sample.ticking Sample.thanks Sample.one_chat)))
      = Some (JBool false)
      /\ field "conversationId"
           (body (fst (post_message Sample.ticking Sample.thanks Sample.one_chat)))
         = Some (JStr [0%N])).
Proof.
  apply (@known_conversation_reused Sample.ticking Sample.thanks Sample.one_chat
           [0%N]).
  - reflexivity.
  - discriminate.
  - reflexivity.
Defined.

Lemma absent_conversation_created_witness :
  conversations (db (snd (post_message Sample.ticking Sample.hello
                            Sample.fresh_world)))
  = conversations (db Sample.fresh_world)
      ++ [mkConversation (uuid_src Sample.ticking (uuid_draws Sample.fresh_world))
            (clock Sample.ticking (clock_reads Sample.fresh_world))]
  /\ (exists added,
        messages (db (snd (post_message Sample.ticking Sample.hello
                             Sample.fresh_world)))
        = messages (db Sample.fresh_world) ++ added
        /\ Forall (fun m => conversation_id m
                            = uuid_src Sample.ticking
                                (uuid_draws Sample.fresh_world)) added)
  /\ ((status (fst (post_message Sample.ticking Sample.hello Sample.fresh_world))
       = 200%Z
       /\ field "isNewConversation"
            (body (fst (post_message Sample.ticking Sample.hello
                          Sample.fresh_world)))
          = Some (JBool true)
       /\ field "conversationId"
            (body (fst (post_message Sample.ticking Sample.hello
                          Sample.fresh_world)))
          = Some (JStr (uuid_src Sample.ticking (uuid_draws Sample.fresh_world))))
      \/ exists e,
           fst (post_message Sample.ticking Sample.hello Sample.fresh_world)
           = chat_error e).
Proof.
  apply (@absent_conversation_created Sample.ticking Sample.hello
           Sample.fresh_world).
  - reflexivity.
  - left. reflexivity.
  - reflexivity.
Defined.

Lemma all_models_fail_witness :
  exists m convId uid tu msgs w',
    req_message Sample.hello = Some (JStr m)
    /\ post_message Sample.throttled Sample.hello Sample.fresh_world
       = (chat_error (mkError (Some 429%Z) (js "slow down")), w')
    /\ messages (db w')
       = messages (db Sample.fresh_world)
           ++ [mkMessage uid convId user (trim m) tu]
    /\ groq_log w' = groq_log Sample.fresh_world ++ calls_of modelsToTry msgs
    /\ ((status (chat_error (mkError (Some 429%Z) (js "slow down"))) = 401%Z
         /\ err_status (mkError (Some 429%Z) (js "slow down")) = Some 401%Z)
        \/ (status (chat_error (mkError (Some 429%Z) (js "slow down"))) = 429%Z
            /\ err_status (mkError (Some 429%Z) (js "slow down")) = Some 429%Z)
        \/ (status (chat_error (mkError (Some 429%Z) (js "slow down"))) = 500%Z
            /\ err_status (mkError (Some 429%Z) (js "slow down")) <> Some 401%Z
            /\ err_status (mkError (Some 429%Z) (js "slow down")) <> Some 429%Z)).
Proof.
  apply (@all_models_fail Sample.throttled Sample.hello Sample.fresh_world
           (mkError (Some 429%Z) (js "slow down"))).
  - reflexivity.
  - apply sample_uuids_fresh. reflexivity.
  - intros i Hi. exists Sample.unavailable.
    destruct i as [|[|[|i]]]; [reflexivity | reflexivity | reflexivity | lia].
  - reflexivity.
Defined.

(** The same run, computed: the status is that of the fourth error,
    429, and only the user's message is stored. *)
Example throttled_run :
  let (r, w') := post_message Sample.throttled Sample.hello Sample.fresh_world in
  status r = 429%Z
  /\ field "fallback" (body r) = Some (JBool true)
  /\ map sender (messages (db w')) = [user]
  /\ map call_model (groq_log w') = modelsToTry.
Proof. vm_compute. repeat split. Qed.

(** A provider error of status 400 on every model comes back as 500. *)
Example provider_400_is_500 :
  let E := mkEnv (fun n => [N.of_nat n]) (fun n => Z.of_nat n) (fun _ => js "now")
                 (fun _ => Failed (mkError (Some 400%Z) (js "bad model"))) in
  status (fst (post_message E Sample.hello Sample.fresh_world)) = 500%Z.
Proof. vm_compute. reflexivity. Qed.

Lemma success_names_first_working_model_witness :
  exists pre model post c msgs,
    modelsToTry = pre ++ model :: post
    /\ (forall i, i < List.length pre ->
          exists e, groq Sample.first_down
                      (List.length (groq_log Sample.fresh_world) + i) = Failed e)
    /\ groq Sample.first_down
         (List.length (groq_log Sample.fresh_world) + List.length pre)
       = Completed c
    /\ field "modelUsed"
         (body (fst (post_message Sample.first_down Sample.hello
                       Sample.fresh_world)))
       = Some (JStr model)
    /\ field "reply"
         (body (fst (post_message Sample.first_down Sample.hello
                       Sample.fresh_world)))
       = Some (JStr (reply_of c))
    /\ reply_of c <> []
    /\ groq_log (snd (post_message Sample.first_down Sample.hello
                        Sample.fresh_world))
       = groq_log Sample.fresh_world ++ calls_of (pre ++ [model]) msgs.
Proof.
  apply (@success_names_first_working_model Sample.first_down Sample.hello
           Sample.fresh_world).
  vm_compute. reflexivity.
Defined.



Lemma routes_keep_store_consistent_witness :
  consistent
    (db (snd (serve_all Sample.stuck_uuid by_insertion
                [PostMessage Sample.hello; PostConversation;
                 PostMessage Sample.thanks; DeleteConversation [0%N];
                 ListConversations]
                Sample.fresh_world))).
Proof.
  apply (@routes_keep_store_consistent Sample.stuck_uuid by_insertion).
  exact fresh_world_consistent.
Defined.

Lemma routes_keep_texts_valid_witness :
  Forall text_ok
    (messages
       (db (snd (serve_all Sample.speechless by_insertion
                   [PostMessage Sample.hello; PostMessage Sample.thanks;
                    GetConversation [0%N]]
                   Sample.fresh_world)))).
Proof.
  apply (@routes_keep_texts_valid Sample.speechless by_insertion).
  constructor.
Defined.

Lemma new_conversation_is_empty_witness :
  (has_conversation (uuid_src Sample.ticking (uuid_draws Sample.one_chat))
     (db Sample.one_chat) = false ->
   fst (post_conversation Sample.ticking Sample.one_chat)
   = res_json 200
       (JObj [("success", JBool true);
              ("conversationId",
               JStr (uuid_src Sample.ticking (uuid_draws Sample.one_chat)));
              ("message", JStr (js "New conversation started"))])
   /\ fst (get_conversation
             (uuid_src Sample.ticking (uuid_draws Sample.one_chat))
             (snd (post_conversation Sample.ticking Sample.one_chat)))
      = res_json 200
          (JObj [("success", JBool true);
                 ("conversationId",
                  JStr (uuid_src Sample.ticking (uuid_draws Sample.one_chat)));
                 ("createdAt",
                  JNum (clock Sample.ticking (clock_reads Sample.one_chat)));
                 ("messageCount", JNum 0);
                 ("messages", JArr [])]))
  /\ (has_conversation (uuid_src Sample.ticking (uuid_draws Sample.one_chat))
        (db Sample.one_chat) = true ->
      fst (post_conversation Sample.ticking Sample.one_chat)
      = res_json 500 (error_body "Failed to create conversation")
      /\ db (snd (post_conversation Sample.ticking Sample.one_chat))
         = db Sample.one_chat).
Proof.
  apply (@new_conversation_is_empty Sample.ticking Sample.one_chat).
  exact one_chat_consistent.
Defined.

(** uuidv4 returning a stored id: the second creation is answered 500
    and adds nothing. *)
Example repeated_uuid_run :
  let w1 := snd (post_conversation Sample.stuck_uuid Sample.fresh_world) in
  let (r, w2) := post_conversation Sample.stuck_uuid w1 in
  status r = 500%Z /\ db w2 = db w1
  /\ List.length (conversations (db w2)) = 1.
Proof. vm_compute. repeat split. Qed.

Lemma list_count_is_history_count_witness :
  exists shown entries n rows,
    list_conversations by_insertion Sample.two_chats
    = (res_json 200
         (JObj [("success", JBool true); ("conversations", JArr entries)]),
       Sample.two_chats)
    /\ entries = map (conversation_summary (db Sample.two_chats)) shown
    /\ StronglySorted (fun a b => (conv_created_at b <= conv_created_at a)%Z)
         shown
    /\ In (JObj [("id", JStr (conv_id (mkConversation [0%N] 0)));
                 ("createdAt", JNum (conv_created_at (mkConversation [0%N] 0)));
                 ("messageCount", JNum n)]) entries
    /\ List.length entries = List.length (conversations (db Sample.two_chats))
    /\ status (fst (get_conversation (conv_id (mkConversation [0%N] 0))
                      Sample.two_chats)) = 200%Z
    /\ field "messageCount"
         (body (fst (get_conversation (conv_id (mkConversation [0%N] 0))
                       Sample.two_chats)))
       = Some (JNum n)
    /\ field "messages"
         (body (fst (get_conversation (conv_id (mkConversation [0%N] 0))
                       Sample.two_chats)))
       = Some (JArr (map message_json rows))
    /\ n = Z.of_nat (List.length rows).
Proof.
  apply (@list_count_is_history_count by_insertion by_insertion_sorts
           Sample.two_chats (mkConversation [0%N] 0)).
  vm_compute. left. reflexivity.
Defined.

(** The list of two conversations, computed: the newer first, two
    messages each. *)
Example two_chats_list :
  field "conversations" (body (fst (list_conversations by_insertion Sample.two_chats)))
  = Some (JArr [JObj [("id", JStr [3%N]); ("createdAt", JNum 3);
                      ("messageCount", JNum 2)];
                JObj [("id", JStr [0%N]); ("createdAt", JNum 0);
                      ("messageCount", JNum 2)]]).
Proof. vm_compute. reflexivity. Qed.

(** The probe with the first two models gone: it recommends the third
    of its list after three calls. *)
Example third_up_probe :
  let (r, w') := checkModels Sample.third_up Sample.fresh_world in
  r = Next (Some (js "llama-3.2-3b-preview"))
  /\ map call_model (groq_log w')
     = [js "llama-3.1-8b-instant"; js "llama-3.2-1b-preview";
        js "llama-3.2-3b-preview"]
  /\ db w' = db Sample.fresh_world.
Proof. vm_compute. repeat split. Qed.

End SampleRuns.
